(** * allspeak.utils: locale negotiation helpers and plural lookup

    A shallow embedding of [allspeak/utils.py] and the properties of its
    functions.  Python text is modelled as [string] (ASCII code points);
    dictionaries with mixed integer and text keys as [gmap key _]; the
    request object as an attribute store threaded through a small
    state-and-exception monad that also records every attribute access. *)

From Stdlib Require Import ZArith Ascii String.
From stdpp Require Import gmap strings list sorting pretty.

#[local] Set Warnings "-register-all".

Local Open Scope string_scope.
Local Open Scope Z_scope.

(** ** Python text operations *)

Module PyStr.

Definition code (c : ascii) : N := N_of_ascii c.

Definition is_upper (c : ascii) : bool :=
  ((65 <=? code c) && (code c <=? 90))%N.

Definition is_lower (c : ascii) : bool :=
  ((97 <=? code c) && (code c <=? 122))%N.

Definition is_digit (c : ascii) : bool :=
  ((48 <=? code c) && (code c <=? 57))%N.

(** [str.isspace] on the ASCII range: TAB, LF, VT, FF, CR, the four
    separators FS, GS, RS, US and the blank. *)
Definition is_space (c : ascii) : bool :=
  (((9 <=? code c) && (code c <=? 13))
   || ((28 <=? code c) && (code c <=? 32)))%N.

Definition lower_char (c : ascii) : ascii :=
  if is_upper c then ascii_of_N (code c + 32) else c.

Definition upper_char (c : ascii) : ascii :=
  if is_lower c then ascii_of_N (code c - 32) else c.

Fixpoint map_chars (f : ascii -> ascii) (s : string) : string :=
  match s with
  | EmptyString => EmptyString
  | String c s' => String (f c) (map_chars f s')
  end.

(** [s.lower()] and [s.upper()], on ASCII texts: the letters A-Z and a-z
    are mapped, every other code point is left as it is. *)
Definition lower : string -> string := map_chars lower_char.
Definition upper : string -> string := map_chars upper_char.

(** [s.replace(old, new)] for one-character [old] and [new] *)
Definition replace (old new : ascii) : string -> string :=
  map_chars (fun c => if Ascii.eqb c old then new else c).

(** [s.split(sep)] for a one-character separator: never empty, the
    empty text gives one empty piece. *)
Fixpoint split (sep : ascii) (s : string) : list string :=
  match s with
  | EmptyString => [EmptyString]
  | String c s' =>
      if Ascii.eqb c sep then EmptyString :: split sep s'
      else match split sep s' with
           | x :: xs => String c x :: xs
           | [] => [String c EmptyString]
           end
  end.

Fixpoint lstrip (s : string) : string :=
  match s with
  | EmptyString => EmptyString
  | String c s' => if is_space c then lstrip s' else s
  end.

Fixpoint rstrip (s : string) : string :=
  match s with
  | EmptyString => EmptyString
  | String c s' =>
      match rstrip s' with
      | EmptyString => if is_space c then EmptyString else String c EmptyString
      | r => String c r
      end
  end.

(** [s.strip()], for the ASCII white space of [is_space]. *)
Definition strip (s : string) : string := rstrip (lstrip s).

(** [sep.join(xs)] *)
Fixpoint join (sep : string) (xs : list string) : string :=
  match xs with
  | [] => EmptyString
  | [x] => x
  | x :: rest => x +:+ sep +:+ join sep rest
  end.

(** [str(n)] for an integer: decimal digits, a leading minus sign for
    negative numbers. *)
Definition str (n : Z) : string := pretty n.

(** The characters of a text, as [for c in s] yields them. *)
Fixpoint chars (s : string) : list string :=
  match s with
  | EmptyString => []
  | String c s' => String c EmptyString :: chars s'
  end.

End PyStr.

(** ** Plural lookup *)

(** Keys of a plural mapping: integers and texts live in one dictionary
    and never compare equal to each other. *)
Inductive key : Type :=
| KInt (n : Z)
| KStr (s : string).

#[global] Instance key_eq_dec : EqDecision key.
Proof. solve_decision. Defined.

#[global] Instance key_countable : Countable key.
Proof.
  refine (inj_countable'
            (fun k => match k with KInt n => inl n | KStr s => inr s end)
            (fun x => match x with inl n => KInt n | inr s => KStr s end) _).
  by intros [].
Defined.

(** [dic.get(k, dflt)] *)
Definition dict_get {V} (dic : gmap key V) (k : key) (dflt : V) : V :=
  match dic !! k with
  | Some v => v
  | None => dflt
  end.

Definition number_literal_equiv : gmap key string :=
  list_to_map
    [ (KInt 0, "zero"); (KStr "0", "zero");
      (KInt 1, "one");  (KStr "1", "one");
      (KInt 2, "few");  (KStr "2", "few");
      (KInt 3, "few");  (KStr "3", "few") ].

Definition number_to_literal (number : key) : string :=
  dict_get number_literal_equiv number "many".

(** [count] is [None] for Python's [None]. *)
Definition pluralize (dic : gmap key string) (count : option Z) : string :=
  let count := match count with None => 0 | Some c => c end in
  let scount := PyStr.str count in
  let literal := number_to_literal (KStr scount) in
  dict_get dic (KInt count)
    (dict_get dic (KStr scount)
       (dict_get dic (KStr literal)
          (dict_get dic (KStr "many")
             (dict_get dic (KStr "n") "")))).

(** ** Python values, exceptions and the request object

    The objects considered: [None], integers, texts, tuples and lists,
    mappings with text keys, locale objects and time zone objects. Among
    them an object is truthy exactly when it is not empty; objects
    without a length (iterators, generators) are not represented. *)

Inductive value : Type :=
| VNone
| VInt (n : Z)
| VStr (s : string)
| VSeq (xs : list value)                (* a tuple or a list *)
| VDict (kvs : list (string * value))   (* a mapping with text keys, in order *)
| VLocale (language : string) (territory : option string)
| VTzinfo (name : string).

Inductive exn : Type :=
| IndexError
| AttributeError
| TypeError
| ValueError
| UnknownLocaleError.

Inductive result (A : Type) : Type :=
| Ok (a : A)
| Raise (e : exn).
Arguments Ok {A} a.
Arguments Raise {A} e.

Definition rbind {A B} (r : result A) (k : A -> result B) : result B :=
  match r with
  | Ok a => k a
  | Raise e => Raise e
  end.

#[global] Instance result_ret : MRet result := fun A a => Ok a.
#[global] Instance result_bind : MBind result := fun A B k r => rbind r k.

(** A list comprehension whose body may raise: items are evaluated in
    order and the first exception aborts the whole comprehension. *)
Fixpoint comprehension {A B} (f : A -> result B) (xs : list A) : result (list B) :=
  match xs with
  | [] => Ok []
  | x :: rest =>
      y ← f x; ys ← comprehension f rest; mret (y :: ys)
  end.

(** Truth value of an object, as [if x] and [x or y] test it. *)
Definition truthy (v : value) : bool :=
  match v with
  | VNone => false
  | VInt n => negb (n =? 0)
  | VStr s => negb (String.eqb s "")
  | VSeq xs => match xs with [] => false | _ => true end
  | VDict kvs => match kvs with [] => false | _ => true end
  | VLocale _ _ => true
  | VTzinfo _ => true
  end.

(** [x or y] on already evaluated operands. *)
Definition por (x y : value) : value := if truthy x then x else y.

Fixpoint assoc (k : string) (kvs : list (string * value)) : option value :=
  match kvs with
  | [] => None
  | (k', v) :: rest => if String.eqb k k' then Some v else assoc k rest
  end.

(** [m.get(k)]: only mappings have the method. *)
Definition mapping_get (m : value) (k : string) : result value :=
  match m with
  | VDict kvs => Ok (match assoc k kvs with Some v => v | None => VNone end)
  | _ => Raise AttributeError
  end.

(** [m.values()] *)
Definition mapping_values (m : value) : result (list value) :=
  match m with
  | VDict kvs => Ok (kvs.*2)
  | _ => Raise AttributeError
  end.

(** [for x in v] *)
Definition iterate (v : value) : result (list value) :=
  match v with
  | VSeq xs => Ok xs
  | VDict kvs => Ok (VStr <$> kvs.*1)
  | VStr s => Ok (VStr <$> PyStr.chars s)
  | _ => Raise TypeError
  end.

Definition as_text (v : value) : result string :=
  match v with
  | VStr s => Ok s
  | _ => Raise TypeError
  end.

(** [sep.join(v)]: [v] must be iterable and yield texts only. *)
Definition str_join (sep : string) (v : value) : result string :=
  xs ← iterate v;
  ss ← comprehension as_text xs;
  mret (PyStr.join sep ss).

(** [xs[i]] on a list *)
Definition index {A} (xs : list A) (i : nat) : result A :=
  match xs !! i with
  | Some x => Ok x
  | None => Raise IndexError
  end.

(** [v.lower()] and [v.upper()]: text methods. *)
Definition lower_method (v : value) : result string :=
  match v with
  | VStr s => Ok (PyStr.lower s)
  | _ => Raise AttributeError
  end.

Definition upper_method (v : value) : result string :=
  match v with
  | VStr s => Ok (PyStr.upper s)
  | _ => Raise AttributeError
  end.

(** *** The request: an attribute store with an access journal *)

Inductive event : Type :=
| EvGet (name : string)
| EvSet (name : string) (v : value).

Record world : Type := World {
  attrs : gmap string value;
  journal : list event
}.

Definition M (A : Type) : Type := world -> result A * world.

Definition ret {A} (a : A) : M A := fun w => (Ok a, w).

Definition bind {A B} (m : M A) (k : A -> M B) : M B :=
  fun w => match m w with
           | (Ok a, w') => k a w'
           | (Raise e, w') => (Raise e, w')
           end.

Definition lift {A} (r : result A) : M A := fun w => (r, w).

#[global] Instance M_ret : MRet M := @ret.
#[global] Instance M_bind : MBind M := fun A B k m => bind m k.

Definition record (ev : event) (w : world) : world :=
  World (attrs w) (journal w ++ [ev]).

(** [getattr(request, name, dflt)] *)
Definition getattr (name : string) (dflt : value) : M value :=
  fun w => (Ok (match attrs w !! name with Some v => v | None => dflt end),
            record (EvGet name) w).

(** [request.name] *)
Definition attr (name : string) : M value :=
  fun w => (match attrs w !! name with
            | Some v => Ok v
            | None => Raise AttributeError
            end, record (EvGet name) w).

(** [request.name = v] *)
Definition setattr (name : string) (v : value) : M unit :=
  fun w => (Ok tt, World (<[name := v]> (attrs w)) (journal w ++ [EvSet name v])).

(** ** Locale tags *)

(** The text branch of [split_locale]. *)
Definition split_locale_str (locale : string) : list string :=
  let locale := PyStr.lower (PyStr.replace "-" "_" locale) in
  let tloc := PyStr.split "_" locale in
  if (1 <? length tloc)%nat
  then alter PyStr.upper (length tloc - 1)%nat tloc
  else tloc.

(** The [babel.Locale] branch of [split_locale]. *)
Definition split_locale_obj (language : string) (territory : option string)
  : list string :=
  let tloc := [PyStr.lower language] in
  match territory with
  | Some t => if String.eqb t "" then tloc else tloc ++ [PyStr.upper t]
  | None => tloc
  end.

Definition split_locale (locale : value) : value :=
  match locale with
  | VLocale language territory => VSeq (VStr <$> split_locale_obj language territory)
  | VStr s => VSeq (VStr <$> split_locale_str s)
  | _ => locale
  end.

Definition locale_to_str (locale : value) : result string :=
  str_join "_" (split_locale locale).

(** ** Ordering of parsed header entries

    [sorted] compares lists of texts the way Python does: texts by code
    point, lists lexicographically, a proper prefix first. *)

Definition entry_compare : list string -> list string -> comparison :=
  list_compare String.compare.

Definition entry_le (a b : list string) : Prop := entry_compare a b <> Gt.

#[global] Instance entry_le_dec : RelDecision entry_le.
Proof. intros a b. unfold entry_le. apply _. Defined.

(** [sorted(xs)]: a stable ascending merge sort. *)
Definition sorted (xs : list (list string)) : list (list string) :=
  merge_sort entry_le xs.

(** ** The functions of [allspeak.utils] *)

Section Utils.

(** The locale database (Babel) is outside the repository.
    [locale_exists language territory] tells whether
    [Locale(language, territory)] finds locale data; when it does not,
    the constructor raises [UnknownLocaleError]. *)
Variable locale_exists : string -> option string -> bool.

(** [get_timezone zone]: [None] stands for [LookupError]. *)
Variable get_timezone : value -> option value.

(** [Locale.negotiate(preferred, available, sep='_')]: a locale object
    or [None], or an exception of the library ([UnknownLocaleError],
    [ValueError]), which [negotiate_locale] lets through. *)
Variable Locale_negotiate : list string -> list string -> result value.

(** [Locale(language, territory)] inside [try ... except UnknownLocaleError] *)
Definition Locale_or_None (language : string) (territory : option string) : value :=
  if locale_exists language territory then VLocale language territory else VNone.

Definition normalize_locale (locale : value) : result value :=
  if negb (truthy locale) then Ok VNone
  else match locale with
       | VLocale _ _ => Ok locale
       | _ =>
           match split_locale locale with
           | VSeq xs =>
               if (length xs =? 1)%nat then
                 l0 ← index xs 0;
                 language ← lower_method l0;
                 mret (Locale_or_None language None)
               else
                 l0 ← index xs 0;
                 language ← lower_method l0;
                 l1 ← index xs 1;
                 territory ← upper_method l1;
                 mret (Locale_or_None language (Some territory))
           | _ => Ok VNone
           end
       end.

Definition normalize_timezone (tzinfo : value) : value :=
  if negb (truthy tzinfo) then VNone
  else match tzinfo with
       | VTzinfo _ => tzinfo
       | _ => match get_timezone tzinfo with
              | Some tz => tz
              | None => VNone
              end
       end.

Definition get_werkzeug_preferred_locales : M (option (list string)) :=
  languages ← getattr "accept_languages" VNone;
  if truthy languages then
    ls ← lift (vals ← mapping_values languages;
               comprehension locale_to_str vals);
    mret (Some ls)
  else mret None.

Definition get_webob_preferred_locales : M (option (list string)) :=
  languages ← getattr "accept_language" VNone;
  if truthy languages then
    ls ← lift (items ← iterate languages;
               comprehension locale_to_str items);
    mret (Some ls)
  else mret None.

(** The body of [get_django_preferred_locales] once the header text is
    at hand. *)
Definition parse_entries (header : string) : list (list string) :=
  (fun l => reverse (PyStr.split ";" (PyStr.strip l))) <$> PyStr.split "," header.

Definition entry_tag (l : list string) : result string :=
  l1 ← index l 1;
  locale_to_str (VStr (PyStr.strip l1)).

Definition parse_accept_language (header : string) : result (list string) :=
  let languages := parse_entries header in
  let languages := reverse (sorted languages) in
  comprehension entry_tag languages.

Definition get_django_preferred_locales : M (option (list string)) :=
  meta ← getattr "META" VNone;
  if negb (truthy meta) then mret None
  else
    meta ← attr "META";
    header ← lift (mapping_get meta "HTTP_ACCEPT_LANGUAGE");
    if truthy header then
      match header with
      | VStr h => ls ← lift (parse_accept_language h); mret (Some ls)
      | _ => lift (Raise AttributeError)
      end
    else mret None.

(** [probe() or rest]: [rest] runs only when the probe gave [None] or
    an empty list. *)
Definition or_else (probe : M (option (list string))) (rest : M (list string))
  : M (list string) :=
  r ← probe;
  match r with
  | Some (x :: xs) => mret (x :: xs)
  | _ => rest
  end.

Definition get_preferred_locales : M (list string) :=
  or_else get_werkzeug_preferred_locales
    (or_else get_webob_preferred_locales
       (or_else get_django_preferred_locales
          (mret []))).

Definition unify_tag (l : string) : string :=
  PyStr.lower (PyStr.replace "-" "_" l).

Definition negotiate_locale (available_locales : value) : M value :=
  if negb (truthy available_locales) then mret VNone
  else
    preferred ← get_preferred_locales;
    match preferred with
    | _ :: _ =>
        let preferred := unify_tag <$> preferred in
        available ← lift (items ← iterate available_locales;
                          comprehension (fun l => s ← lower_method l;
                                                  mret (unify_tag s)) items);
        lift (Locale_negotiate preferred available)
    | [] => mret VNone
    end.

(** [getattr(request, 'args', getattr(request, 'GET', {})).get(name)]:
    the inner [getattr] is an argument, so it is evaluated first. *)
Definition query_get (name : string) : M value :=
  get ← getattr "GET" (VDict []);
  args ← getattr "args" get;
  lift (mapping_get args name).

Definition get_request_timezone (default : value) : M value :=
  own ← getattr "tzinfo" VNone;
  tzinfo ← (if truthy own then mret own else query_get "tzinfo");
  setattr "tzinfo" (por (normalize_timezone tzinfo) default);;
  attr "tzinfo".

Definition get_request_locale (default : value) : M value :=
  own ← getattr "locale" VNone;
  locale ← (if truthy own then mret own else query_get "locale");
  normalized ← lift (normalize_locale locale);
  setattr "locale" (por normalized default);;
  attr "locale".

End Utils.

(** A request whose only attribute is [META] with the given header. *)
Definition django_request (header : string) : world :=
  World {[ "META" := VDict [("HTTP_ACCEPT_LANGUAGE", VStr header)] ]} [].

(** ** Vocabulary of the properties *)

Module Plural.

(** The bucket rule in the words of the specification. *)
Definition bucket_rule (n : Z) : string :=
  match n with
  | 0 => "zero"
  | 1 => "one"
  | 2 | 3 => "few"
  | _ => "many"
  end.

(** The value under the first key of [keys] present in [dic]. *)
Fixpoint first_hit (dic : gmap key string) (keys : list key) : string :=
  match keys with
  | [] => ""
  | k :: rest =>
      match dic !! k with
      | Some v => v
      | None => first_hit dic rest
      end
  end.

Definition count_value (count : option Z) : Z :=
  match count with
  | None => 0
  | Some c => c
  end.

(** The four keys of the specification's lookup order. *)
Definition spec_keys (count : option Z) : list key :=
  let n := count_value count in
  [KInt n; KStr (PyStr.str n); KStr (bucket_rule n); KStr "n"].

(** The keys [pluralize] consults, in order. *)
Definition lookup_keys (count : option Z) : list key :=
  let n := count_value count in
  [KInt n; KStr (PyStr.str n); KStr (bucket_rule n); KStr "many"; KStr "n"].

(** The two mappings of the docstring of [pluralize]. *)
Definition apples : gmap key string :=
  list_to_map [(KInt 0, "No apples"); (KInt 1, "One apple");
               (KInt 3, "Few apples"); (KStr "n", "{count} apples")].

Definition apples_by_name : gmap key string :=
  list_to_map [(KStr "one", "One apple"); (KStr "few", "Few apples");
               (KStr "many", "{count} apples")].

End Plural.

Module Tag.

Fixpoint all_chars (p : ascii -> bool) (s : string) : bool :=
  match s with
  | EmptyString => true
  | String c s' => p c && all_chars p s'
  end.

(** A language code: lower-case ASCII letters. *)
Definition valid_language (s : string) : bool := all_chars PyStr.is_lower s.

(** A region code: upper-case ASCII letters or digits. *)
Definition valid_region (s : string) : bool :=
  all_chars (fun c => PyStr.is_upper c || PyStr.is_digit c) s.

(** The character map of [replace('-', '_')]. *)
Definition dash_to_underscore (c : ascii) : ascii :=
  if Ascii.eqb c "-" then "_"%char else c.

(** The serialized tag of a piece of text, as the header readers
    build it: ['_'.join(split_locale(s))]. *)
Definition canonical (s : string) : string :=
  PyStr.join "_" (split_locale_str s).

End Tag.

Module Header.

(** The tag that [get_django_preferred_locales] emits for a sorted
    entry with at least two pieces. *)
Definition tag_of (entry : list string) : string :=
  Tag.canonical (PyStr.strip (nth 1 entry "")).

(** Entries in the order Python's descending sort leaves them. *)
Definition entry_ge (a b : list string) : Prop := entry_le b a.

(** [a] occurs at a smaller position than [b]. *)
Definition before {A} (a b : A) (l : list A) : Prop :=
  exists i j, (i < j)%nat /\ l !! i = Some a /\ l !! j = Some b.

(** *** The parsing rule in the words of the specification

    Qualities are counted in thousandths; an entry without a suffix,
    or with a suffix that is not [q=] and a decimal number, has
    quality 1.0. *)

Definition digit_value (c : ascii) : option N :=
  if PyStr.is_digit c then Some (PyStr.code c - 48)%N else None.

Fixpoint fraction (s : string) (scale : N) : option N :=
  match s with
  | EmptyString => Some 0%N
  | String c s' =>
      d ← digit_value c;
      r ← fraction s' (scale / 10)%N;
      Some (d * scale + r)%N
  end.

Definition decimal (s : string) : option N :=
  match s with
  | String d EmptyString => v ← digit_value d; Some (v * 1000)%N
  | String d (String "." f) =>
      v ← digit_value d; r ← fraction f 100%N; Some (v * 1000 + r)%N
  | _ => None
  end.

Definition spec_quality (suffix : option string) : N :=
  match suffix with
  | Some (String "q" (String "=" num)) =>
      match decimal num with
      | Some q => q
      | None => 1000%N
      end
  | _ => 1000%N
  end.

Definition spec_entry (l : string) : string * N :=
  match PyStr.split ";" (PyStr.strip l) with
  | tag :: q :: _ => (tag, spec_quality (Some (PyStr.strip q)))
  | [tag] => (tag, spec_quality None)
  | [] => (EmptyString, spec_quality None)
  end.

(** Stable insertion: [x] goes before the first entry whose quality is
    not larger than its own. *)
Fixpoint spec_insert (x : string * N) (l : list (string * N)) : list (string * N) :=
  match l with
  | [] => [x]
  | y :: l' => if (x.2 <? y.2)%N then y :: spec_insert x l' else x :: y :: l'
  end.

Definition spec_stable_sort (l : list (string * N)) : list (string * N) :=
  foldr spec_insert [] l.

Definition spec_parse_header (header : string) : list string :=
  (fun e => Tag.canonical (PyStr.strip e.1))
    <$> spec_stable_sort (spec_entry <$> PyStr.split "," header).

End Header.

Module Request.

Definition is_mapping (v : value) : Prop := exists kvs, v = VDict kvs.

Definition attr_or (name : string) (dflt : value) (w : world) : value :=
  match attrs w !! name with
  | Some v => v
  | None => dflt
  end.

(** The object whose [get] method answers query arguments. *)
Definition query_source (w : world) : value :=
  attr_or "args" (attr_or "GET" (VDict []) w) w.

(** The attribute [name] of the request when it is truthy, else the
    query argument [name]. *)
Definition found_value (name : string) (w : world) : value :=
  let own := attr_or name VNone w in
  if truthy own then own
  else match query_source w with
       | VDict kvs => match assoc name kvs with Some v => v | None => VNone end
       | _ => VNone
       end.

(** The query arguments can be asked for [name]. *)
Definition query_ok (name : string) (w : world) : Prop :=
  truthy (attr_or name VNone w) = true \/ is_mapping (query_source w).

Definition is_text (v : value) : Prop := exists s, v = VStr s.

(** A locale given as a tuple or list holds texts. *)
Definition locale_like (v : value) : Prop :=
  match v with
  | VSeq xs => Forall is_text xs
  | _ => True
  end.

(** The assignments recorded in a journal. *)
Definition writes (j : list event) : list (string * value) :=
  omap (fun ev => match ev with
                  | EvSet name v => Some (name, v)
                  | EvGet _ => None
                  end) j.

(** The attribute [name] is absent or holds an empty (falsy) object. *)
Definition silent (name : string) (w : world) : Prop :=
  match attrs w !! name with
  | Some v => truthy v = false
  | None => True
  end.

(** No usable header: [META] is absent or empty, or it is a mapping
    whose language header is absent or empty. *)
Definition no_header (w : world) : Prop :=
  match attrs w !! "META" with
  | None => True
  | Some meta =>
      truthy meta = false \/
      exists kvs, meta = VDict kvs /\
        match assoc "HTTP_ACCEPT_LANGUAGE" kvs with
        | Some h => truthy h = false
        | None => True
        end
  end.

(** The request without its attribute [name]. *)
Definition without (name : string) (w : world) : world :=
  World (delete name (attrs w)) (journal w).

(** Two requests that differ at most in attributes which are absent
    or empty on both sides, with the same journal. *)
Definition alike (w1 w2 : world) : Prop :=
  journal w1 = journal w2
  /\ forall a, attrs w1 !! a = attrs w2 !! a \/ (silent a w1 /\ silent a w2).

(** A computation that cannot tell such requests apart. *)
Definition respects {A} (m : M A) : Prop :=
  forall w1 w2, alike w1 w2 ->
    fst (m w1) = fst (m w2) /\ alike (snd (m w1)) (snd (m w2)).

(** A computation that leaves the attributes alone and only adds
    entries to the journal. *)
Definition extends_journal {A} (m : M A) : Prop :=
  forall w, exists evs, snd (m w) = World (attrs w) (journal w ++ evs).

End Request.

Module Shape.

(** The two characters that [split_locale] treats as separators. *)
Definition is_separator (c : ascii) : bool :=
  Ascii.eqb c "-" || Ascii.eqb c "_".

Definition no_separator (s : string) : bool :=
  Tag.all_chars (fun c => negb (is_separator c)) s.

(** The character map of [replace('-', '_').lower()]. *)
Definition unify_char (c : ascii) : ascii :=
  PyStr.lower_char (Tag.dash_to_underscore c).

(** Objects that are neither text, nor a locale, nor iterable. *)
Definition untagged (v : value) : bool :=
  match v with
  | VNone | VInt _ | VTzinfo _ => true
  | _ => false
  end.

(** A list (or tuple) of texts. *)
Definition texts (xs : list string) : value := VSeq (VStr <$> xs).

(** A mapping-like accessor whose values are the given texts. *)
Definition accept (tags : list string) : value :=
  VDict ((fun t => (t, VStr t)) <$> tags).

Definition locale_or_none (v : value) : Prop :=
  v = VNone \/ exists language territory, v = VLocale language territory.

(** A computation that leaves the attributes alone and records reads
    only. *)
Definition read_only {A} (m : M A) : Prop :=
  forall w, exists evs,
    Request.writes evs = []
    /\ snd (m w) = World (attrs w) (journal w ++ evs).

End Shape.

Module Weighted.

(** The texts of this development are ASCII texts: on them the
    operations of [PyStr] are those of Python ([lower], [upper] and
    [strip] do more on other code points). *)
Definition is_ascii (c : ascii) : bool := (PyStr.code c <? 128)%N.

Definition ascii_text (s : string) : bool := Tag.all_chars is_ascii s.

Definition no_semicolon (s : string) : bool :=
  Tag.all_chars (fun c => negb (Ascii.eqb c ";")) s.

(** A header entry with exactly one [;], given as the pair of its tag
    and of its suffix: the text [tag;suffix]. *)
Definition entry_text (item : string * string) : string :=
  item.1 +:+ String ";" item.2.

Definition well_formed (item : string * string) : Prop :=
  no_semicolon item.1 = true /\ no_semicolon item.2 = true.

(** What [split(';')[::-1]] makes of such an entry. *)
Definition parsed (item : string * string) : list string :=
  [item.2; item.1].

(** Descending order on (suffix text, tag text), both compared as
    texts. *)
Definition item_ge (a b : string * string) : Prop :=
  String.compare a.2 b.2 = Gt
  \/ (a.2 = b.2 /\ String.compare a.1 b.1 <> Lt).

(** The tag emitted for an entry: ['_'.join(split_locale(tag.strip()))]. *)
Definition item_tag (item : string * string) : string :=
  Tag.canonical (PyStr.strip item.1).

End Weighted.

(** * Properties *)

(** ** The examples of the docstrings and of the specification *)

Section Examples.

Import Plural.

Example pluralize_apples_0 : pluralize apples (Some 0) = "No apples".
Proof. vm_compute. reflexivity. Qed.

Example pluralize_apples_3 : pluralize apples (Some 3) = "Few apples".
Proof. vm_compute. reflexivity. Qed.

Example pluralize_apples_2 : pluralize apples (Some 2) = "{count} apples".
Proof. vm_compute. reflexivity. Qed.

Example pluralize_apples_10 : pluralize apples (Some 10) = "{count} apples".
Proof. vm_compute. reflexivity. Qed.

Example pluralize_by_name_0 : pluralize apples_by_name (Some 0) = "{count} apples".
Proof. vm_compute. reflexivity. Qed.

Example pluralize_by_name_3 : pluralize apples_by_name (Some 3) = "Few apples".
Proof. vm_compute. reflexivity. Qed.

Example pluralize_empty : pluralize ∅ (Some 3) = "".
Proof. vm_compute. reflexivity. Qed.

Example str_negative : PyStr.str (-37) = "-37".
Proof. reflexivity. Qed.

Example split_keeps_empty_pieces : PyStr.split "," "a,,b" = ["a"; ""; "b"].
Proof. reflexivity. Qed.

Example strip_both_ends : PyStr.strip "  a b  " = "a b".
Proof. reflexivity. Qed.

Example split_locale_str_mixed : split_locale_str "EN-us" = ["en"; "US"].
Proof. reflexivity. Qed.

Example header_all_weighted :
  parse_accept_language "fr;q=0.5,en;q=0.9" = Ok ["en"; "fr"].
Proof. vm_compute. reflexivity. Qed.

Example header_single_malformed : parse_accept_language "en;q=bogus" = Ok ["en"].
Proof. vm_compute. reflexivity. Qed.

Example spec_header_mixed :
  Header.spec_parse_header "fr;q=1.0,en;q=bogus, de;q=0.85,it;q=0.9"
  = ["fr"; "en"; "it"; "de"].
Proof. vm_compute. reflexivity. Qed.

End Examples.

(** ** Plural lookup *)

Section PluralFacts.

Import Plural.

Lemma str_inj (m n : Z) : PyStr.str m = PyStr.str n -> m = n.
Proof. unfold PyStr.str. apply (inj pretty). Qed.

Lemma literal_lookup_other (s : string) :
  s <> "0" -> s <> "1" -> s <> "2" -> s <> "3" ->
  number_literal_equiv !! KStr s = None.
Proof.
  intros H0 H1 H2 H3. unfold number_literal_equiv. cbn [list_to_map foldr fst snd uncurry].
  repeat (rewrite lookup_insert_ne by congruence).
  apply lookup_empty.
Qed.

Lemma number_to_literal_str (n : Z) :
  number_to_literal (KStr (PyStr.str n)) = bucket_rule n.
Proof.
  destruct (decide (n = 0)) as [->|N0]; [reflexivity|].
  destruct (decide (n = 1)) as [->|N1]; [reflexivity|].
  destruct (decide (n = 2)) as [->|N2]; [reflexivity|].
  destruct (decide (n = 3)) as [->|N3]; [reflexivity|].
  unfold number_to_literal, dict_get.
  rewrite literal_lookup_other.
  - destruct n as [|[[]|[]|]|]; try reflexivity; lia.
  - intros E. apply (str_inj n 0) in E. lia.
  - intros E. apply (str_inj n 1) in E. lia.
  - intros E. apply (str_inj n 2) in E. lia.
  - intros E. apply (str_inj n 3) in E. lia.
Qed.

Lemma pluralize_first_hit (dic : gmap key string) (count : option Z) :
  pluralize dic count = first_hit dic (lookup_keys count).
Proof.
  unfold pluralize, lookup_keys, dict_get. fold (count_value count).
  rewrite number_to_literal_str. cbn [first_hit].
  repeat case_match; reflexivity.
Qed.

End PluralFacts.

(** C1 (amended): [pluralize] returns the value under the first present
    key among the count, its decimal text, its bucket name, the key
    ["many"] and the catch-all ["n"], in this order, and the empty text
    when none is present; no other key of the mapping has any influence
    on the result. *)
Theorem pluralize_lookup_order (dic : gmap key string) (count : option Z) :
  pluralize dic count = Plural.first_hit dic (Plural.lookup_keys count)
  /\ forall dic' : gmap key string,
       Forall (fun k => dic' !! k = dic !! k) (Plural.lookup_keys count) ->
       pluralize dic' count = pluralize dic count.
Proof.
  split; [apply pluralize_first_hit|].
  intros dic' Hagree. rewrite !pluralize_first_hit.
  induction Hagree as [|k ks Hk _ IH]; [reflexivity|].
  cbn [Plural.first_hit]. rewrite Hk, IH. reflexivity.
Qed.

Lemma pluralize_lookup_order_witness :
  pluralize (<[KInt 9 := "nine"]> {[KStr "n" := "x"]}) (Some 2)
  = pluralize {[KStr "n" := "x"]} (Some 2).
Proof.
  apply (proj2 (pluralize_lookup_order {[KStr "n" := "x"]} (Some 2))).
  repeat (constructor; [vm_compute; reflexivity|]). constructor.
Defined.

(** C1 (as stated) fails: for the count 0, whose bucket is ["zero"], and
    a mapping that has none of the keys [0], ["0"], ["zero"], ["n"] but
    has ["many"], the result is the value under ["many"], not the empty
    text. *)
Lemma pluralize_many_fallback_counterexample :
  let dic : gmap key string := {[KStr "many" := "x"]} in
  Plural.bucket_rule 0 <> "many"
  /\ Forall (fun k => dic !! k = None) (Plural.spec_keys (Some 0))
  /\ pluralize dic (Some 0) = "x"
  /\ pluralize dic (Some 0) <> "".
Proof.
  cbv zeta. split; [discriminate|]. split.
  - repeat (constructor; [vm_compute; reflexivity|]). constructor.
  - split; [vm_compute; reflexivity|]. vm_compute. discriminate.
Qed.

(** C6: a count of [None] is looked up as 0; the bucket name computed
    for a count is ["zero"] for 0, ["one"] for 1, ["few"] for 2 and 3 and
    ["many"] for every other integer, negative ones included; and when
    the mapping has neither the count nor its decimal text as a key, the
    lookup continues with that bucket name. *)
Theorem pluralize_bucket (dic : gmap key string) (n : Z) :
  pluralize dic None = pluralize dic (Some 0)
  /\ number_to_literal (KStr (PyStr.str n)) = Plural.bucket_rule n
  /\ (n < 0 \/ 4 <= n -> number_to_literal (KStr (PyStr.str n)) = "many")
  /\ (dic !! KInt n = None -> dic !! KStr (PyStr.str n) = None ->
      pluralize dic (Some n)
      = dict_get dic (KStr (Plural.bucket_rule n))
          (dict_get dic (KStr "many") (dict_get dic (KStr "n") ""))).
Proof.
  split; [reflexivity|]. split; [apply number_to_literal_str|]. split.
  - intros Hn. rewrite number_to_literal_str.
    destruct n as [|[[]|[]|]|]; try reflexivity; lia.
  - intros Hi Hs. unfold pluralize. rewrite number_to_literal_str.
    unfold dict_get at 1. rewrite Hi. unfold dict_get at 1. rewrite Hs.
    reflexivity.
Qed.

Lemma pluralize_bucket_witness :
  number_to_literal (KStr (PyStr.str (-5))) = "many"
  /\ pluralize {[KStr "few" := "Few apples"]} (Some 3) = "Few apples".
Proof.
  split.
  - apply (proj1 (proj2 (proj2 (pluralize_bucket ∅ (-5))))). left. lia.
  - etrans.
    + apply (proj2 (proj2 (proj2 (pluralize_bucket {[KStr "few" := "Few apples"]} 3))));
        vm_compute; reflexivity.
    + vm_compute; reflexivity.
Defined.

(** ** Locale tags *)

Section TextFacts.

Import PyStr Tag.

Lemma append_nil (b : string) : "" +:+ b = b.
Proof. reflexivity. Qed.

Lemma append_cons (c : ascii) (a b : string) :
  String c a +:+ b = String c (a +:+ b).
Proof. reflexivity. Qed.

Lemma map_chars_app (f : ascii -> ascii) (a b : string) :
  map_chars f (a +:+ b) = map_chars f a +:+ map_chars f b.
Proof.
  induction a as [|c a IH]; [reflexivity|].
  rewrite append_cons. cbn [map_chars]. by rewrite append_cons, IH.
Qed.

Lemma map_chars_compose (f g : ascii -> ascii) (s : string) :
  map_chars f (map_chars g s) = map_chars (fun c => f (g c)) s.
Proof. induction s as [|c s IH]; cbn; [reflexivity|]. by rewrite IH. Qed.

(** Two character maps agree on a text as soon as they agree on every
    character that a third map sends into [p]. *)
Lemma map_chars_agree (p : ascii -> bool) (f g h : ascii -> ascii) (s : string) :
  (forall c, p (f c) = true -> g c = h c) ->
  Tag.all_chars p (map_chars f s) = true ->
  map_chars g s = map_chars h s.
Proof.
  intros Hc. induction s as [|c s IH]; cbn; [reflexivity|].
  intros [Hp Hs]%andb_prop. rewrite (Hc c Hp), (IH Hs). reflexivity.
Qed.

Lemma all_chars_transfer (p q : ascii -> bool) (f g : ascii -> ascii) (s : string) :
  (forall c, p (f c) = true -> q (g c) = true) ->
  Tag.all_chars p (map_chars f s) = true ->
  Tag.all_chars q (map_chars g s) = true.
Proof.
  intros Hc. induction s as [|c s IH]; cbn; [reflexivity|].
  intros [Hp Hs]%andb_prop. rewrite (Hc c Hp), (IH Hs). reflexivity.
Qed.

Lemma split_app_sep (sep : ascii) (a b : string) :
  Tag.all_chars (fun c => negb (Ascii.eqb c sep)) a = true ->
  split sep (a +:+ String sep b) = a :: split sep b.
Proof.
  induction a as [|c a IH].
  - intros _. rewrite append_nil. cbn. by rewrite Ascii.eqb_refl.
  - cbn [Tag.all_chars]. intros [Hc Ha]%andb_prop. apply negb_true_iff in Hc.
    rewrite append_cons. cbn [split]. rewrite Hc, (IH Ha). reflexivity.
Qed.

Lemma split_no_sep (sep : ascii) (a : string) :
  Tag.all_chars (fun c => negb (Ascii.eqb c sep)) a = true ->
  split sep a = [a].
Proof.
  induction a as [|c a IH]; cbn; [reflexivity|].
  intros [Hc Ha]%andb_prop. apply negb_true_iff in Hc. rewrite Hc, (IH Ha).
  reflexivity.
Qed.

Lemma split_nonempty (sep : ascii) (s : string) : split sep s <> [].
Proof.
  induction s as [|c s IH]; cbn; [discriminate|].
  destruct (Ascii.eqb c sep); [discriminate|].
  destruct (split sep s); [discriminate|discriminate].
Qed.

Local Ltac by_cases_on c :=
  destruct c as [[] [] [] [] [] [] [] []]; vm_compute; try reflexivity;
  try discriminate; intros; try reflexivity; try discriminate.

Lemma lower_unify_letter (c : ascii) :
  is_lower (lower_char c) = true ->
  lower_char (dash_to_underscore c) = lower_char c.
Proof. by_cases_on c. Qed.

Lemma lower_unify_region (c : ascii) :
  is_upper (upper_char c) || is_digit (upper_char c) = true ->
  lower_char (dash_to_underscore c) = lower_char c.
Proof. by_cases_on c. Qed.

Lemma letter_not_underscore (c : ascii) :
  is_lower (lower_char c) = true ->
  negb (Ascii.eqb (lower_char c) "_") = true.
Proof. by_cases_on c. Qed.

Lemma region_not_underscore (c : ascii) :
  is_upper (upper_char c) || is_digit (upper_char c) = true ->
  negb (Ascii.eqb (lower_char c) "_") = true.
Proof. by_cases_on c. Qed.

Lemma upper_lower_char (c : ascii) : upper_char (lower_char c) = upper_char c.
Proof. by_cases_on c. Qed.

Lemma lower_lower_char (c : ascii) : lower_char (lower_char c) = lower_char c.
Proof. by_cases_on c. Qed.

Lemma upper_upper_char (c : ascii) : upper_char (upper_char c) = upper_char c.
Proof. by_cases_on c. Qed.

Lemma upper_lower (s : string) : upper (lower s) = upper s.
Proof.
  unfold upper, lower. rewrite map_chars_compose.
  induction s as [|c s IH]; cbn; [reflexivity|].
  by rewrite upper_lower_char, IH.
Qed.

Lemma lower_lower (s : string) : lower (lower s) = lower s.
Proof.
  unfold lower. rewrite map_chars_compose.
  induction s as [|c s IH]; cbn; [reflexivity|].
  by rewrite lower_lower_char, IH.
Qed.

Lemma upper_upper (s : string) : upper (upper s) = upper s.
Proof.
  unfold upper. rewrite map_chars_compose.
  induction s as [|c s IH]; cbn; [reflexivity|].
  by rewrite upper_upper_char, IH.
Qed.

(** The shape of [split_locale] on [l], a separator, [r]. *)
Lemma split_locale_str_pair (l r : string) (sep : ascii) :
  Tag.valid_language (lower l) = true ->
  Tag.valid_region (upper r) = true ->
  sep = "-"%char \/ sep = "_"%char ->
  split_locale_str (l +:+ String sep r) = [lower l; upper r].
Proof.
  intros Hl Hr Hsep.
  assert (split "_" (lower (replace "-" "_" (l +:+ String sep r)))
          = [lower l; lower r]) as E.
  { unfold replace.
    change (fun c : ascii => if Ascii.eqb c "-" then "_"%char else c)
      with dash_to_underscore.
    unfold lower. rewrite map_chars_compose, map_chars_app. cbn [map_chars].
    assert (lower_char (dash_to_underscore sep) = "_"%char) as ->
      by (destruct Hsep as [-> | ->]; reflexivity).
    rewrite (map_chars_agree is_lower lower_char _ lower_char l lower_unify_letter Hl).
    rewrite (map_chars_agree (fun c => is_upper c || is_digit c) upper_char _
               lower_char r lower_unify_region Hr).
    rewrite split_app_sep
      by exact (all_chars_transfer _ _ _ _ l letter_not_underscore Hl).
    rewrite split_no_sep
      by exact (all_chars_transfer _ _ _ _ r region_not_underscore Hr).
    reflexivity. }
  unfold split_locale_str. cbv zeta. rewrite E. cbn.
  by rewrite upper_lower.
Qed.

Lemma comprehension_as_text (xs : list string) :
  comprehension as_text (VStr <$> xs) = Ok xs.
Proof.
  induction xs as [|x xs IH]; cbn; [reflexivity|].
  unfold mbind, result_bind in *. cbn. rewrite IH. reflexivity.
Qed.

Lemma locale_to_str_text (s : string) :
  locale_to_str (VStr s) = Ok (Tag.canonical s).
Proof.
  unfold locale_to_str, split_locale, str_join, iterate.
  unfold mbind, result_bind, rbind. rewrite comprehension_as_text.
  reflexivity.
Qed.

End TextFacts.

(** C8: every way of writing a valid pair (language, REGION) as text,
    with a hyphen or an underscore between the two segments and each
    letter in either case, splits into the same tag: the language in
    lower case, then the region in upper case; its serialized form and
    the locale that [normalize_locale] asks the locale database for are
    the same for all of them. *)
Theorem split_locale_canonical
    (locale_exists : string -> option string -> bool)
    (language region l r : string) (sep : ascii) :
  Tag.valid_language language = true ->
  Tag.valid_region region = true ->
  PyStr.lower l = language ->
  PyStr.upper r = region ->
  sep = "-"%char \/ sep = "_"%char ->
  split_locale (VStr (l +:+ String sep r)) = VSeq [VStr language; VStr region]
  /\ locale_to_str (VStr (l +:+ String sep r)) = Ok (language +:+ "_" +:+ region)
  /\ normalize_locale locale_exists (VStr (l +:+ String sep r))
     = Ok (Locale_or_None locale_exists language (Some region))
  /\ PyStr.lower language = language
  /\ PyStr.upper region = region.
Proof.
  intros Hl Hr <- <- Hsep.
  assert (split_locale_str (l +:+ String sep r) = [PyStr.lower l; PyStr.upper r]) as E
    by (by apply split_locale_str_pair).
  split; [cbn [split_locale]; by rewrite E|].
  split; [rewrite locale_to_str_text; unfold Tag.canonical; by rewrite E|].
  split; [|split; [apply lower_lower | apply upper_upper]].
  unfold normalize_locale.
  assert (truthy (VStr (l +:+ String sep r)) = true) as -> by (by destruct l).
  cbn [negb split_locale]. rewrite E. cbn.
  by rewrite lower_lower, upper_upper.
Qed.

Lemma split_locale_canonical_witness :
  split_locale (VStr "eN-us") = VSeq [VStr "en"; VStr "US"]
  /\ locale_to_str (VStr "eN-us") = Ok "en_US"
  /\ normalize_locale (fun _ _ => true) (VStr "eN-us")
     = Ok (Locale_or_None (fun _ _ => true) "en" (Some "US"))
  /\ PyStr.lower "en" = "en"
  /\ PyStr.upper "US" = "US".
Proof.
  apply (split_locale_canonical (fun _ _ => true) "en" "US" "eN" "us" "-");
    [reflexivity | reflexivity | reflexivity | reflexivity | left; reflexivity].
Defined.

(** ** The order of header entries *)

Section OrderFacts.

Lemma string_compare_refl (s : string) : String.compare s s = Eq.
Proof.
  induction s as [|c s IH]; cbn; [reflexivity|].
  unfold Ascii.compare. by rewrite N.compare_refl.
Qed.

Lemma string_compare_eq (x y : string) : String.compare x y = Eq <-> x = y.
Proof.
  split; [apply String.compare_eq_iff|]. intros ->. apply string_compare_refl.
Qed.

Lemma string_compare_flip (x y : string) :
  String.compare y x = CompOpp (String.compare x y).
Proof. apply String.compare_antisym. Qed.

Lemma string_compare_lt_trans (x y z : string) :
  String.compare x y = Lt -> String.compare y z = Lt -> String.compare x z = Lt.
Proof.
  intros Hxy Hyz.
  assert (String.le x z) as Hxz.
  { transitivity y; unfold String.le, String.leb.
    - by rewrite Hxy.
    - by rewrite Hyz. }
  unfold String.le, String.leb in Hxz.
  destruct (String.compare x z) eqn:E; [|reflexivity|contradiction].
  apply string_compare_eq in E as ->.
  rewrite (string_compare_flip y z), Hyz in Hxy. discriminate.
Qed.

Lemma string_compare_trans (x y z : string) (c : comparison) :
  String.compare x y = c -> String.compare y z = c -> String.compare x z = c.
Proof.
  destruct c; intros Hxy Hyz.
  - apply string_compare_eq in Hxy as ->. exact Hyz.
  - by apply string_compare_lt_trans with y.
  - rewrite (string_compare_flip z x).
    rewrite (string_compare_lt_trans z y x); [reflexivity| |].
    + by rewrite (string_compare_flip y z), Hyz.
    + by rewrite (string_compare_flip x y), Hxy.
Qed.

Lemma entry_compare_eq (a b : list string) : entry_compare a b = Eq <-> a = b.
Proof. apply list_compare_refl, string_compare_eq. Qed.

Lemma entry_compare_flip (a b : list string) :
  entry_compare b a = CompOpp (entry_compare a b).
Proof.
  apply list_compare_antisym; [apply string_compare_eq|].
  intros x y. apply string_compare_flip.
Qed.

Lemma entry_compare_trans (a b c : list string) (r : comparison) :
  entry_compare a b = r -> entry_compare b c = r -> entry_compare a c = r.
Proof.
  apply list_compare_trans.
  - apply string_compare_eq.
  - apply string_compare_trans.
  - intros x y. apply string_compare_flip.
Qed.

#[global] Instance entry_le_total : Total entry_le.
Proof.
  intros a b. unfold entry_le. rewrite (entry_compare_flip a b).
  destruct (entry_compare a b); cbn; [left|left|right]; discriminate.
Qed.

#[global] Instance entry_le_trans : Transitive entry_le.
Proof.
  intros a b c. unfold entry_le.
  destruct (entry_compare a b) eqn:Hab; [| |congruence].
  - apply entry_compare_eq in Hab as ->. tauto.
  - destruct (entry_compare b c) eqn:Hbc; [| |congruence].
    + apply entry_compare_eq in Hbc as <-. rewrite Hab. discriminate.
    + rewrite (entry_compare_trans a b c Lt Hab Hbc). discriminate.
Qed.

#[global] Instance entry_ge_trans : Transitive Header.entry_ge.
Proof. intros a b c Hab Hbc. unfold Header.entry_ge in *. by transitivity b. Qed.

Lemma StronglySorted_positions {A} (R : relation A) (l : list A) (i j : nat) (a b : A) :
  StronglySorted R l -> (i < j)%nat -> l !! i = Some a -> l !! j = Some b -> R a b.
Proof.
  intros Hs. revert i j. induction Hs as [|x l Hs IH Hx]; intros i j Hij Hi Hj.
  - by rewrite lookup_nil in Hi.
  - destruct j as [|j]; [lia|]. destruct i as [|i]; cbn in Hi, Hj.
    + injection Hi as ->. by eapply Forall_lookup_1.
    + eapply (IH i j); [lia|done..].
Qed.

#[global] Instance entry_le_antisym : AntiSymm (=) entry_le.
Proof.
  intros a b Hab Hba. unfold entry_le in *.
  rewrite (entry_compare_flip a b) in Hba.
  destruct (entry_compare a b) eqn:E; cbn in *; try congruence.
  by apply entry_compare_eq.
Qed.

(** The order is total and antisymmetric, so the ascending arrangement
    of a list is unique: every sorting algorithm returns [sorted xs]. *)
Lemma sorted_unique (xs ys : list (list string)) :
  ys ≡ₚ xs -> StronglySorted entry_le ys -> ys = sorted xs.
Proof.
  intros Hperm Hsorted.
  apply (StronglySorted_unique entry_le); [exact Hsorted| |].
  - apply StronglySorted_merge_sort; apply _.
  - rewrite Hperm. symmetry. apply merge_sort_Permutation.
Qed.

(** What [sorted(...)[::-1]] leaves: the same entries, largest first. *)
Lemma sorted_reversed (xs : list (list string)) :
  reverse (sorted xs) ≡ₚ xs
  /\ StronglySorted Header.entry_ge (reverse (sorted xs)).
Proof.
  split.
  - rewrite reverse_Permutation. apply merge_sort_Permutation.
  - apply Sorted_StronglySorted; [apply _|].
    apply (Sorted_reverse entry_le), Sorted_merge_sort, _.
Qed.

End OrderFacts.

(** Unfolds the monad operations down to plain functions on worlds. *)
Ltac run_monad :=
  unfold mbind, M_bind, bind, getattr, attr, setattr, lift, mret, M_ret, ret, record;
  cbn [attrs journal fst snd].

(** ** Reading the raw header *)

Section HeaderFacts.

Lemma entry_tag_ok (e : list string) :
  (2 <= length e)%nat -> entry_tag e = Ok (Header.tag_of e).
Proof.
  destruct e as [|q [|t rest]]; cbn [length]; [lia|lia|]. intros _.
  unfold entry_tag, index, Header.tag_of. cbn.
  apply locale_to_str_text.
Qed.

Lemma entry_tag_short (e : list string) :
  (length e < 2)%nat -> entry_tag e = Raise IndexError.
Proof. destruct e as [|q [|t rest]]; cbn [length]; [done|done|lia]. Qed.

Lemma comprehension_entry_tag_ok (entries : list (list string)) :
  Forall (fun e => (2 <= length e)%nat) entries ->
  comprehension entry_tag entries = Ok (Header.tag_of <$> entries).
Proof.
  induction 1 as [|e entries He _ IH]; [reflexivity|].
  cbn [comprehension]. rewrite (entry_tag_ok e He), IH. reflexivity.
Qed.

Lemma comprehension_entry_tag_raise (entries : list (list string)) :
  Exists (fun e => (length e < 2)%nat) entries ->
  comprehension entry_tag entries = Raise IndexError.
Proof.
  induction entries as [|e entries IH]; intros Hex; [by inv Hex|].
  cbn [comprehension].
  destruct (decide (length e < 2)%nat) as [Hshort|Hlong].
  - by rewrite (entry_tag_short e Hshort).
  - rewrite (entry_tag_ok e) by lia.
    inv Hex; [contradiction|]. rewrite IH by done. reflexivity.
Qed.

(** A header in which every entry has a [;] is read without error:
    the tags of its entries, largest entry first. *)
Lemma parse_accept_language_ok (header : string) :
  Forall (fun e => (2 <= length e)%nat) (parse_entries header) ->
  parse_accept_language header
  = Ok (Header.tag_of <$> reverse (sorted (parse_entries header))).
Proof.
  intros Hall. unfold parse_accept_language. cbv zeta.
  apply comprehension_entry_tag_ok.
  by rewrite (proj1 (sorted_reversed _)).
Qed.

Lemma parse_accept_language_raise (header : string) :
  Exists (fun e => (length e < 2)%nat) (parse_entries header) ->
  parse_accept_language header = Raise IndexError.
Proof.
  intros Hex. unfold parse_accept_language. cbv zeta.
  apply comprehension_entry_tag_raise.
  by rewrite (proj1 (sorted_reversed _)).
Qed.

(** The Django reader on a request whose [META] holds a non-empty
    header text. *)
Lemma get_django_preferred_locales_meta (w : world) kvs (header : string) :
  attrs w !! "META" = Some (VDict kvs) ->
  assoc "HTTP_ACCEPT_LANGUAGE" kvs = Some (VStr header) ->
  header <> "" ->
  fst (get_django_preferred_locales w)
  = match parse_accept_language header with
    | Ok ls => Ok (Some ls)
    | Raise e => Raise e
    end.
Proof.
  intros Hmeta Hget Hne.
  assert (truthy (VDict kvs) = true) as Hkvs by (by destruct kvs).
  assert (truthy (VStr header) = true) as Hh by (by destruct header).
  unfold get_django_preferred_locales. run_monad.
  rewrite Hmeta, Hkvs. cbn [negb attrs journal]. rewrite Hmeta.
  cbn [mapping_get]. rewrite Hget, Hh.
  by destruct (parse_accept_language header).
Qed.

Lemma get_django_preferred_locales_run (header : string) :
  header <> "" ->
  fst (get_django_preferred_locales (django_request header))
  = match parse_accept_language header with
    | Ok ls => Ok (Some ls)
    | Raise e => Raise e
    end.
Proof.
  intros Hne.
  apply (get_django_preferred_locales_meta _ [("HTTP_ACCEPT_LANGUAGE", VStr header)]);
    [apply lookup_singleton_eq | reflexivity | exact Hne].
Qed.

(** An entry without [;] parses to a single piece. *)
Lemma plain_entry_short (l : string) :
  Tag.all_chars (fun c => negb (Ascii.eqb c ";")) (PyStr.strip l) = true ->
  (length (reverse (PyStr.split ";" (PyStr.strip l))) < 2)%nat.
Proof. intros H. rewrite (split_no_sep _ _ H). cbn. lia. Qed.

End HeaderFacts.

(** C2: the header ["fr;q=0.5,en;q=0.9,de"], read through the Django
    path, does not give the list the specification announces: the entry
    without a quality suffix makes the reader raise [IndexError]. *)
Theorem django_header_plain_entry_raises :
  fst (get_django_preferred_locales (django_request "fr;q=0.5,en;q=0.9,de"))
  = Raise IndexError
  /\ Header.spec_parse_header "fr;q=0.5,en;q=0.9,de" = ["de"; "en"; "fr"].
Proof. split; vm_compute; reflexivity. Qed.

(** C3: a non-empty header with an entry that has no [;] makes
    [get_django_preferred_locales] raise [IndexError] instead of
    returning an absence value. *)
Theorem django_header_without_suffix_raises (header : string) :
  header <> "" ->
  Exists (fun l => Tag.all_chars (fun c => negb (Ascii.eqb c ";")) (PyStr.strip l) = true)
         (PyStr.split "," header) ->
  fst (get_django_preferred_locales (django_request header)) = Raise IndexError.
Proof.
  intros Hne Hex. rewrite (get_django_preferred_locales_run header Hne).
  rewrite parse_accept_language_raise; [reflexivity|].
  unfold parse_entries. apply Exists_fmap.
  eapply Exists_impl; [exact Hex|]. intros l Hl. by apply plain_entry_short.
Qed.

Lemma django_header_without_suffix_raises_witness :
  fst (get_django_preferred_locales (django_request "en")) = Raise IndexError.
Proof.
  apply (django_header_without_suffix_raises "en"); [discriminate|].
  vm_compute. constructor. reflexivity.
Defined.

Section RankingFacts.

Lemma entry_ge_pair (q1 t1 q2 t2 : string) :
  Header.entry_ge [q1; t1] [q2; t2] ->
  String.compare q1 q2 <> Lt
  /\ (q1 = q2 -> String.compare t1 t2 <> Lt).
Proof.
  unfold Header.entry_ge, entry_le, entry_compare. cbn.
  rewrite (string_compare_flip q1 q2), (string_compare_flip t1 t2).
  destruct (String.compare q1 q2) eqn:Hq; cbn.
  - intros Ht. split; [discriminate|]. intros _.
    destruct (String.compare t1 t2); cbn in *; congruence.
  - intros H. by destruct H.
  - intros _. split; [discriminate|]. intros ->.
    by rewrite string_compare_refl in Hq.
Qed.

Lemma quality_bogus_above_digits (d : ascii) (rest : string) :
  PyStr.is_digit d = true ->
  String.compare "q=bogus" (String "q" (String "=" (String d rest))) = Gt.
Proof.
  intros Hd. cbn.
  destruct d as [[] [] [] [] [] [] [] []]; vm_compute in Hd; try discriminate;
    reflexivity.
Qed.

End RankingFacts.

Section WeightedFacts.

Import Weighted.

Lemma parse_entries_items (header : string) (items : list (string * string)) :
  PyStr.strip <$> PyStr.split "," header = entry_text <$> items ->
  Forall well_formed items ->
  parse_entries header = parsed <$> items.
Proof.
  intros Htexts Hwf. unfold parse_entries.
  transitivity ((fun l => reverse (PyStr.split ";" l))
                  <$> (PyStr.strip <$> PyStr.split "," header)).
  { by rewrite <- list_fmap_compose. }
  rewrite Htexts, <- list_fmap_compose. apply Forall_fmap_ext_1.
  eapply Forall_impl; [exact Hwf|]. intros [t q] [Ht Hq]. cbn in *.
  unfold entry_text. cbn [fst snd].
  rewrite (split_app_sep ";" t q Ht), (split_no_sep ";" q Hq). reflexivity.
Qed.

Lemma entry_ge_item_ge (a b : string * string) :
  Header.entry_ge (parsed a) (parsed b) -> item_ge a b.
Proof.
  destruct a as [t1 q1], b as [t2 q2]. unfold parsed, item_ge. cbn [fst snd].
  intros [Hq Ht]%entry_ge_pair.
  destruct (String.compare q1 q2) eqn:E; [|done|by left].
  apply string_compare_eq in E as ->. right. split; [done|]. by apply Ht.
Qed.

Lemma sorted_parsed_items (l : list (string * string)) :
  StronglySorted Header.entry_ge (parsed <$> l) -> StronglySorted item_ge l.
Proof.
  induction l as [|a l IH]; [constructor|].
  cbn [fmap list_fmap]. intros Hs. apply StronglySorted_cons in Hs as [Hhd Htl].
  constructor; [by apply IH|].
  apply (Forall_fmap parsed) in Hhd.
  eapply Forall_impl; [exact Hhd|]. intros b Hb. by apply entry_ge_item_ge.
Qed.

(** A header made of entries [tag;suffix]: the tags, in descending
    order of (suffix, tag). *)
Lemma parse_accept_language_items (header : string) (items : list (string * string)) :
  PyStr.strip <$> PyStr.split "," header = entry_text <$> items ->
  Forall well_formed items ->
  exists ranked : list (string * string),
    ranked ≡ₚ items
    /\ StronglySorted item_ge ranked
    /\ parse_accept_language header = Ok (item_tag <$> ranked).
Proof.
  intros Htexts Hwf.
  pose proof (parse_entries_items header items Htexts Hwf) as Hentries.
  assert (Forall (fun e => (2 <= length e)%nat) (parse_entries header)) as Hlong.
  { rewrite Hentries. apply Forall_fmap, Forall_forall. intros it _. cbn. lia. }
  rewrite (parse_accept_language_ok header Hlong), Hentries.
  destruct (sorted_reversed (parsed <$> items)) as [Hperm Hsorted].
  change (parsed <$> items) with (map parsed items) in Hperm at 2.
  apply Permutation_map_inv in Hperm as (ranked & Hranked & Hitems).
  change (map parsed ranked) with (parsed <$> ranked) in Hranked.
  exists ranked. split; [by symmetry|].
  rewrite Hranked in Hsorted |- *. split; [by apply sorted_parsed_items|].
  by rewrite <- list_fmap_compose.
Qed.

Lemma item_ge_rank (ranked : list (string * string)) (i j : nat)
    (t q t' q' : string) :
  StronglySorted item_ge ranked ->
  ranked !! i = Some (t, q) ->
  ranked !! j = Some (t', q') ->
  String.compare q q' = Gt ->
  (i < j)%nat.
Proof.
  intros Hsorted Hi Hj Hgt.
  destruct (Nat.lt_trichotomy i j) as [Hlt|[->|Hlt]]; [exact Hlt| |].
  - rewrite Hi in Hj. injection Hj as <- <-.
    by rewrite string_compare_refl in Hgt.
  - pose proof (StronglySorted_positions _ _ j i _ _ Hsorted Hlt Hj Hi) as Hge.
    unfold item_ge in Hge. cbn [fst snd] in Hge.
    destruct Hge as [Hge|[-> _]].
    + rewrite (string_compare_flip q q'), Hgt in Hge. discriminate.
    + by rewrite string_compare_refl in Hgt.
Qed.

End WeightedFacts.

(** C4 (amended): for an ASCII header whose comma-separated entries,
    stripped, are texts [tag;suffix] with exactly one [;], the result is
    the list of the entries' tags, each stripped and normalized and
    nothing else, arranged in descending order of the pair (suffix text,
    tag text), both compared as texts. Two entries with the same suffix
    text therefore come out with the textually larger tag first, whatever
    their order in the header. *)
Theorem parse_accept_language_order
    (header : string) (items : list (string * string)) :
  Weighted.ascii_text header = true ->
  PyStr.strip <$> PyStr.split "," header = Weighted.entry_text <$> items ->
  Forall Weighted.well_formed items ->
  exists ranked : list (string * string),
    ranked ≡ₚ items
    /\ StronglySorted Weighted.item_ge ranked
    /\ parse_accept_language header = Ok (Weighted.item_tag <$> ranked)
    /\ forall (i j : nat) (q t1 t2 : string),
         (i < j)%nat ->
         ranked !! i = Some (t1, q) ->
         ranked !! j = Some (t2, q) ->
         String.compare t1 t2 <> Lt.
Proof.
  intros _ Htexts Hwf.
  destruct (parse_accept_language_items header items Htexts Hwf)
    as (ranked & Hperm & Hsorted & Hrun).
  exists ranked. split; [exact Hperm|]. split; [exact Hsorted|].
  split; [exact Hrun|].
  intros i j q t1 t2 Hij Hi Hj.
  pose proof (StronglySorted_positions _ _ i j _ _ Hsorted Hij Hi Hj) as Hge.
  unfold Weighted.item_ge in Hge. cbn [fst snd] in Hge.
  destruct Hge as [Hgt|[_ Hge]]; [|exact Hge].
  by rewrite string_compare_refl in Hgt.
Qed.

Lemma parse_accept_language_order_witness :
  exists ranked : list (string * string),
    ranked ≡ₚ [("en", "q=0.5"); ("fr", "q=0.5"); ("de", "q=0.9")]
    /\ StronglySorted Weighted.item_ge ranked
    /\ parse_accept_language "en;q=0.5, fr;q=0.5,de;q=0.9"
       = Ok (Weighted.item_tag <$> ranked)
    /\ forall (i j : nat) (q t1 t2 : string),
         (i < j)%nat ->
         ranked !! i = Some (t1, q) ->
         ranked !! j = Some (t2, q) ->
         String.compare t1 t2 <> Lt.
Proof.
  apply (parse_accept_language_order "en;q=0.5, fr;q=0.5,de;q=0.9"
           [("en", "q=0.5"); ("fr", "q=0.5"); ("de", "q=0.9")]).
  - reflexivity.
  - reflexivity.
  - repeat constructor.
Defined.

(** C4 (as stated) fails: in ["en;q=0.5,fr;q=0.5"] the two entries have
    the same quality and [en] comes first, yet the result lists [fr]
    before [en]; the stable sort of the specification keeps [en] first. *)
Lemma stable_order_counterexample :
  parse_entries "en;q=0.5,fr;q=0.5" = [["q=0.5"; "en"]; ["q=0.5"; "fr"]]
  /\ parse_accept_language "en;q=0.5,fr;q=0.5" = Ok ["fr"; "en"]
  /\ Header.spec_parse_header "en;q=0.5,fr;q=0.5" = ["en"; "fr"]
  /\ ~ Header.before "en" "fr" ["fr"; "en"].
Proof.
  split; [vm_compute; reflexivity|]. split; [vm_compute; reflexivity|].
  split; [vm_compute; reflexivity|].
  intros (i & j & Hij & Hi & Hj).
  destruct i as [|[|i]]; cbn in Hi; try discriminate.
  destruct j as [|[|j]]; cbn in Hj; try discriminate; lia.
Qed.

(** C5 (amended): for an ASCII header whose comma-separated entries,
    stripped, are texts [tag;suffix] with exactly one [;], an entry with
    a malformed quality suffix raises nothing and its tag is placed by
    the text of its suffix like any other: it comes before the tag of
    every entry whose suffix is textually smaller. The suffix [q=bogus]
    is textually larger than every suffix [q=] followed by a digit, so
    the tag of such an entry comes before the tags of all entries with a
    numeric quality, [q=1.0] included. *)
Theorem malformed_quality_ranked_by_text
    (header : string) (items : list (string * string)) :
  Weighted.ascii_text header = true ->
  PyStr.strip <$> PyStr.split "," header = Weighted.entry_text <$> items ->
  Forall Weighted.well_formed items ->
  exists ranked : list (string * string),
    ranked ≡ₚ items
    /\ parse_accept_language header = Ok (Weighted.item_tag <$> ranked)
    /\ (forall (i j : nat) (t q t' q' : string),
          ranked !! i = Some (t, q) ->
          ranked !! j = Some (t', q') ->
          String.compare q q' = Gt ->
          (i < j)%nat)
    /\ (forall (i j : nat) (t t' rest : string) (d : ascii),
          ranked !! i = Some (t, "q=bogus") ->
          ranked !! j = Some (t', String "q" (String "=" (String d rest))) ->
          PyStr.is_digit d = true ->
          (i < j)%nat).
Proof.
  intros _ Htexts Hwf.
  destruct (parse_accept_language_items header items Htexts Hwf)
    as (ranked & Hperm & Hsorted & Hrun).
  exists ranked. split; [exact Hperm|]. split; [exact Hrun|]. split.
  - intros i j t q t' q'. by apply item_ge_rank.
  - intros i j t t' rest d Hi Hj Hd.
    apply (item_ge_rank ranked i j _ _ _ _ Hsorted Hi Hj).
    by apply quality_bogus_above_digits.
Qed.

Lemma malformed_quality_ranked_by_text_witness :
  exists ranked : list (string * string),
    ranked ≡ₚ [("fr", "q=1.0"); ("en", "q=bogus"); ("de", "q=0.7")]
    /\ parse_accept_language "fr;q=1.0,en;q=bogus,de;q=0.7"
       = Ok (Weighted.item_tag <$> ranked)
    /\ (forall (i j : nat) (t q t' q' : string),
          ranked !! i = Some (t, q) ->
          ranked !! j = Some (t', q') ->
          String.compare q q' = Gt ->
          (i < j)%nat)
    /\ (forall (i j : nat) (t t' rest : string) (d : ascii),
          ranked !! i = Some (t, "q=bogus") ->
          ranked !! j = Some (t', String "q" (String "=" (String d rest))) ->
          PyStr.is_digit d = true ->
          (i < j)%nat).
Proof.
  apply (malformed_quality_ranked_by_text "fr;q=1.0,en;q=bogus,de;q=0.7"
           [("fr", "q=1.0"); ("en", "q=bogus"); ("de", "q=0.7")]).
  - reflexivity.
  - reflexivity.
  - repeat constructor.
Defined.

(** C5 (as stated) fails: ranked as quality 1.0, [en;q=bogus] would tie
    with [fr;q=1.0] and come out where [en;q=1.0] does, after [fr]; it
    comes out before [fr]. And the malformed suffix [q=] ranks its entry
    below quality 0.5, not as quality 1.0. *)
Lemma malformed_quality_counterexample :
  parse_accept_language "fr;q=1.0,en;q=bogus" = Ok ["en"; "fr"]
  /\ parse_accept_language "fr;q=1.0,en;q=1.0" = Ok ["fr"; "en"]
  /\ Header.spec_parse_header "fr;q=1.0,en;q=bogus" = ["fr"; "en"]
  /\ parse_accept_language "fr;q=0.5,en;q=" = Ok ["fr"; "en"]
  /\ Header.spec_parse_header "fr;q=0.5,en;q=" = ["en"; "fr"].
Proof. repeat split; vm_compute; reflexivity. Qed.

(** ** Negotiation and the request attributes *)

Section RequestFacts.

Import Request.

Variable locale_exists : string -> option string -> bool.
Variable get_timezone : value -> option value.
Variable Locale_negotiate : list string -> list string -> result value.

Lemma werkzeug_silent (w : world) :
  silent "accept_languages" w ->
  get_werkzeug_preferred_locales w = (Ok None, record (EvGet "accept_languages") w).
Proof.
  unfold silent, get_werkzeug_preferred_locales. run_monad.
  destruct (attrs w !! "accept_languages") as [v|]; [|reflexivity].
  by intros ->.
Qed.

Lemma webob_silent (w : world) :
  silent "accept_language" w ->
  get_webob_preferred_locales w = (Ok None, record (EvGet "accept_language") w).
Proof.
  unfold silent, get_webob_preferred_locales. run_monad.
  destruct (attrs w !! "accept_language") as [v|]; [|reflexivity].
  by intros ->.
Qed.

Lemma django_silent (w : world) :
  no_header w ->
  exists reads, get_django_preferred_locales w
                = (Ok None, World (attrs w) (journal w ++ EvGet "META" :: reads)).
Proof.
  unfold no_header, get_django_preferred_locales. run_monad.
  destruct (attrs w !! "META") as [meta|] eqn:Hmeta; cbn [truthy negb].
  - intros [Hempty|(kvs & -> & Hh)].
    + rewrite Hempty. cbn [negb]. by eexists.
    + destruct (truthy (VDict kvs)); cbn [negb]; [|by eexists].
      cbn [attrs journal]. rewrite Hmeta. cbn [mapping_get].
      destruct (assoc "HTTP_ACCEPT_LANGUAGE" kvs) as [h|].
      * rewrite Hh. rewrite <- app_assoc. by eexists.
      * cbn [truthy]. rewrite <- app_assoc. by eexists.
  - intros _. by eexists.
Qed.

Lemma alike_record (ev : event) (w1 w2 : world) :
  alike w1 w2 -> alike (record ev w1) (record ev w2).
Proof.
  intros [Hj Ha]. split; [unfold record; cbn; by rewrite Hj|exact Ha].
Qed.

Lemma alike_without (name : string) (w : world) :
  silent name w -> alike w (without name w).
Proof.
  intros Hs. split; [reflexivity|]. intros a.
  destruct (decide (a = name)) as [->|Hne].
  - right. split; [exact Hs|]. unfold silent, without. cbn.
    by rewrite lookup_delete_eq.
  - left. unfold without. cbn. by rewrite lookup_delete_ne.
Qed.

Lemma werkzeug_respects : respects get_werkzeug_preferred_locales.
Proof.
  intros w1 w2 Hw. destruct (proj2 Hw "accept_languages") as [Heq|[H1 H2]].
  - unfold get_werkzeug_preferred_locales. run_monad. rewrite Heq.
    destruct (attrs w2 !! "accept_languages") as [v|]; cbn [truthy].
    + destruct (truthy v); [|split; [done|by apply alike_record]].
      case_match; cbn; (split; [done|by apply alike_record]).
    + split; [done|by apply alike_record].
  - rewrite (werkzeug_silent w1 H1), (werkzeug_silent w2 H2).
    split; [done|by apply alike_record].
Qed.

Lemma webob_respects : respects get_webob_preferred_locales.
Proof.
  intros w1 w2 Hw. destruct (proj2 Hw "accept_language") as [Heq|[H1 H2]].
  - unfold get_webob_preferred_locales. run_monad. rewrite Heq.
    destruct (attrs w2 !! "accept_language") as [v|]; cbn [truthy].
    + destruct (truthy v); [|split; [done|by apply alike_record]].
      case_match; cbn; (split; [done|by apply alike_record]).
    + split; [done|by apply alike_record].
  - rewrite (webob_silent w1 H1), (webob_silent w2 H2).
    split; [done|by apply alike_record].
Qed.

Lemma django_respects : respects get_django_preferred_locales.
Proof.
  intros w1 w2 Hw.
  pose proof (alike_record (EvGet "META") _ _ Hw) as Hw1.
  pose proof (alike_record (EvGet "META") _ _ Hw1) as Hw2.
  destruct (proj2 Hw "META") as [Heq|[H1 H2]].
  - unfold get_django_preferred_locales. run_monad. rewrite Heq.
    destruct (attrs w2 !! "META") as [meta|] eqn:Hmeta; cbn [truthy negb];
      [|split; [reflexivity|exact Hw1]].
    destruct (truthy meta); cbn [negb]; [|split; [reflexivity|exact Hw1]].
    cbn [attrs journal]. rewrite Heq, Hmeta.
    destruct (mapping_get meta "HTTP_ACCEPT_LANGUAGE") as [h|];
      [|split; [reflexivity|exact Hw2]].
    destruct (truthy h); [|split; [reflexivity|exact Hw2]].
    destruct h; try (split; [reflexivity|exact Hw2]).
    destruct (parse_accept_language s); split; first [reflexivity|exact Hw2].
  - unfold silent in H1, H2. unfold get_django_preferred_locales. run_monad.
    destruct (attrs w1 !! "META") as [m1|], (attrs w2 !! "META") as [m2|];
      rewrite ?H1, ?H2; cbn [truthy negb]; split; first [reflexivity|exact Hw1].
Qed.

Lemma or_else_respects (probe : M (option (list string))) (rest : M (list string)) :
  respects probe -> respects rest -> respects (or_else probe rest).
Proof.
  intros Hp Hr w1 w2 Hw. destruct (Hp w1 w2 Hw) as [Hres Hw'].
  unfold or_else. run_monad.
  destruct (probe w1) as [r1 w1'], (probe w2) as [r2 w2']. cbn in Hres, Hw'.
  subst r2. destruct r1 as [[[|x xs]|]|e]; try (by apply Hr); by split.
Qed.

Lemma get_preferred_locales_respects : respects get_preferred_locales.
Proof.
  unfold get_preferred_locales.
  repeat apply or_else_respects;
    auto using werkzeug_respects, webob_respects, django_respects.
  intros w1 w2 Hw. by split.
Qed.

End RequestFacts.

(** C10: an accessor attribute that is present but empty has the same
    effect as an absent one, both on the result and on the attributes
    read; an empty werkzeug accessor passes on to the webob probe, an
    empty webob accessor to the Django probe; and when the three sources
    are absent or empty the result is the empty list, after each probe
    has been tried in this order. *)
Theorem get_preferred_locales_empty_as_absent (w : world) :
  (forall (name : string) (v : value),
      attrs w !! name = Some v -> truthy v = false ->
      fst (get_preferred_locales w)
      = fst (get_preferred_locales (Request.without name w))
      /\ journal (snd (get_preferred_locales w))
         = journal (snd (get_preferred_locales (Request.without name w))))
  /\ (Request.silent "accept_languages" w ->
      get_preferred_locales w
      = or_else get_webob_preferred_locales
          (or_else get_django_preferred_locales (mret []))
          (record (EvGet "accept_languages") w))
  /\ (Request.silent "accept_language" w ->
      or_else get_webob_preferred_locales
        (or_else get_django_preferred_locales (mret [])) w
      = or_else get_django_preferred_locales (mret [])
          (record (EvGet "accept_language") w))
  /\ (Request.silent "accept_languages" w ->
      Request.silent "accept_language" w ->
      Request.no_header w ->
      exists reads,
        get_preferred_locales w
        = (Ok [], World (attrs w)
                    (journal w ++ EvGet "accept_languages"
                       :: EvGet "accept_language" :: EvGet "META" :: reads))).
Proof.
  assert (forall w0, Request.silent "accept_languages" w0 ->
            get_preferred_locales w0
            = or_else get_webob_preferred_locales
                (or_else get_django_preferred_locales (mret []))
                (record (EvGet "accept_languages") w0)) as Hwerk.
  { intros w0 H0. unfold get_preferred_locales. unfold or_else at 1.
    unfold mbind at 1, M_bind at 1, bind at 1.
    by rewrite (werkzeug_silent w0 H0). }
  assert (forall w0, Request.silent "accept_language" w0 ->
            or_else get_webob_preferred_locales
              (or_else get_django_preferred_locales (mret [])) w0
            = or_else get_django_preferred_locales (mret [])
                (record (EvGet "accept_language") w0)) as Hwebob.
  { intros w0 H0. unfold or_else at 1.
    unfold mbind at 1, M_bind at 1, bind at 1.
    by rewrite (webob_silent w0 H0). }
  split; [|split; [apply Hwerk|split; [apply Hwebob|]]].
  - intros name v Hv Hfalse.
    assert (Request.silent name w) as Hs
      by (unfold Request.silent; by rewrite Hv).
    destruct (get_preferred_locales_respects w (Request.without name w)
                (alike_without name w Hs)) as [Hres [Hj _]].
    by split.
  - intros H1 H2 H3. rewrite (Hwerk w H1), Hwebob by exact H2.
    destruct (django_silent
                (record (EvGet "accept_language") (record (EvGet "accept_languages") w)) H3)
      as [reads Hd].
    exists reads. unfold or_else. unfold mbind, M_bind, bind. rewrite Hd.
    unfold mret, M_ret, ret, record. cbn [attrs journal].
    by rewrite <- !app_assoc.
Qed.

Lemma get_preferred_locales_empty_as_absent_witness :
  let w := World {[ "accept_languages" := VDict [] ]} [] in
  fst (get_preferred_locales w)
  = fst (get_preferred_locales (Request.without "accept_languages" w))
  /\ journal (snd (get_preferred_locales w))
     = journal (snd (get_preferred_locales (Request.without "accept_languages" w))).
Proof.
  cbv zeta.
  apply (proj1 (get_preferred_locales_empty_as_absent
                  (World {[ "accept_languages" := VDict [] ]} []))
           "accept_languages" (VDict []));
    [apply lookup_singleton_eq | reflexivity].
Defined.

(** C7: with an empty collection of candidates [negotiate_locale]
    answers [None] at once: the request is left as it was and nothing
    is read from it, whatever preferences it carries. *)
Theorem negotiate_locale_empty_candidates
    (Locale_negotiate : list string -> list string -> result value)
    (available_locales : value) (w : world) :
  truthy available_locales = false ->
  negotiate_locale Locale_negotiate available_locales w = (Ok VNone, w).
Proof. intros Hempty. unfold negotiate_locale. by rewrite Hempty. Qed.

Lemma negotiate_locale_empty_candidates_witness :
  negotiate_locale (fun _ _ => Ok (VLocale "en" None)) (VSeq [])
    (World {[ "accept_language" := VSeq [VStr "en"] ]} [])
  = (Ok VNone, World {[ "accept_language" := VSeq [VStr "en"] ]} []).
Proof.
  apply (negotiate_locale_empty_candidates (fun _ _ => Ok (VLocale "en" None)) (VSeq [])).
  reflexivity.
Defined.

(** ** Storing the resolved locale and time zone *)

Section AssignmentFacts.

Import Request.

Variable locale_exists : string -> option string -> bool.
Variable get_timezone : value -> option value.

Lemma writes_app (j1 j2 : list event) : writes (j1 ++ j2) = (writes j1 ++ writes j2)%list.
Proof. apply omap_app. Qed.

(** The query arguments of a request whose own attribute is empty. *)
Lemma query_get_run (name : string) (w : world) (kvs : list (string * value)) :
  query_source w = VDict kvs ->
  query_get name w
  = (Ok (match assoc name kvs with Some v => v | None => VNone end),
     World (attrs w) (journal w ++ [EvGet "GET"; EvGet "args"])).
Proof.
  unfold query_source, attr_or, query_get. run_monad. intros ->.
  cbn [mapping_get]. by rewrite <- app_assoc.
Qed.

(** Looking the value up: the attribute first, then the query. *)
Lemma found_value_run (name : string) (w : world) :
  query_ok name w ->
  exists reads,
    writes reads = []
    /\ (own ← getattr name VNone;
        if truthy own then mret own else query_get name) w
       = (Ok (found_value name w), World (attrs w) (journal w ++ reads)).
Proof.
  intros Hq. unfold found_value, attr_or. run_monad.
  destruct (truthy (match attrs w !! name with Some v => v | None => VNone end))
    eqn:Hown.
  - by exists [EvGet name].
  - destruct Hq as [Hq|[kvs Hkvs]].
    { unfold attr_or in Hq. congruence. }
    assert (query_source (World (attrs w) (journal w ++ [EvGet name])) = VDict kvs)
      as Hsrc by exact Hkvs.
    rewrite (query_get_run name _ kvs Hsrc), Hkvs. cbn [attrs journal].
    exists [EvGet name; EvGet "GET"; EvGet "args"]. by rewrite <- app_assoc.
Qed.

Lemma bind_assoc_run {A B C} (m : M A) (f : A -> M B) (g : B -> M C) (w : world) :
  (x ← m; y ← f x; g y) w = (y ← (x ← m; f x); g y) w.
Proof. unfold mbind, M_bind, bind. by destruct (m w) as [[a|e] w']. Qed.

(** [request.name = v; return request.name] *)
Lemma store_and_return (name : string) (v : value) (w : world) :
  (setattr name v;; attr name) w
  = (Ok v, World (<[name := v]> (attrs w))
             (journal w ++ [EvSet name v; EvGet name])).
Proof.
  run_monad. rewrite lookup_insert_eq. by rewrite <- app_assoc.
Qed.

Lemma texts_index (xs : list value) (i : nat) :
  Forall is_text xs -> (i < length xs)%nat ->
  exists s, index xs i = Ok (VStr s).
Proof.
  intros Hall Hi. unfold index.
  destruct (lookup_lt_is_Some_2 xs i Hi) as [x Hx]. rewrite Hx.
  destruct (Forall_lookup_1 _ _ _ _ Hall Hx) as [s ->]. by exists s.
Qed.

Lemma normalize_tuple_total (xs : list value) :
  Forall is_text xs -> xs <> [] ->
  exists n,
    (if (length xs =? 1)%nat then
       l0 ← index xs 0;
       language ← lower_method l0;
       mret (Locale_or_None locale_exists language None)
     else
       l0 ← index xs 0;
       language ← lower_method l0;
       l1 ← index xs 1;
       territory ← upper_method l1;
       mret (Locale_or_None locale_exists language (Some territory)))
    = Ok n.
Proof.
  intros Hall Hne.
  assert (0 < length xs)%nat as H0 by (destruct xs; [done|cbn; lia]).
  destruct (texts_index xs 0 Hall H0) as [s0 E0]. rewrite E0.
  destruct (length xs =? 1)%nat eqn:Hlen; [by eexists|].
  apply Nat.eqb_neq in Hlen.
  assert (1 < length xs)%nat as H1 by lia.
  destruct (texts_index xs 1 Hall H1) as [s1 E1].
  unfold mbind, result_bind, rbind. cbn [lower_method]. rewrite E1.
  by eexists.
Qed.

Lemma split_locale_str_nonempty (s : string) : split_locale_str s <> [].
Proof.
  unfold split_locale_str. cbv zeta.
  pose proof (split_nonempty "_" (PyStr.lower (PyStr.replace "-" "_" s))) as Hne.
  destruct (PyStr.split "_" (PyStr.lower (PyStr.replace "-" "_" s))) as [|x xs];
    [done|].
  case_match; [|done]. intros E. apply (f_equal length) in E.
  rewrite length_alter in E. cbn in E. lia.
Qed.

(** [normalize_locale] raises nothing on a locale-like object. *)
Lemma normalize_locale_total (locale : value) :
  locale_like locale ->
  exists n, normalize_locale locale_exists locale = Ok n.
Proof.
  intros Hlike. unfold normalize_locale.
  destruct (truthy locale) eqn:Htruthy; cbn [negb]; [|by eexists].
  destruct locale as [|n|s|xs|kvs|language territory|name];
    cbn [split_locale]; try (by eexists).
  - apply normalize_tuple_total.
    + apply Forall_fmap, Forall_forall. intros x _. by exists x.
    + intros E. apply fmap_nil_inv in E. by apply split_locale_str_nonempty in E.
  - apply normalize_tuple_total; [exact Hlike|]. by destruct xs.
Qed.

End AssignmentFacts.

(** C9: [get_request_timezone] and [get_request_locale] assign once, to
    [tzinfo] and to [locale] respectively; every other attribute of the
    request keeps its value; the value returned is the value stored, and
    it is the normalized form of what the request carried when that form
    is something (a truthy object), and the default passed by the caller
    when the normalization gives nothing. *)
Theorem request_attribute_assignment
    (locale_exists : string -> option string -> bool)
    (get_timezone : value -> option value)
    (default : value) (w : world) :
  (Request.query_ok "tzinfo" w ->
   let normalized := normalize_timezone get_timezone (Request.found_value "tzinfo" w) in
   let v := if truthy normalized then normalized else default in
   exists w',
     get_request_timezone get_timezone default w = (Ok v, w')
     /\ attrs w' = <["tzinfo" := v]> (attrs w)
     /\ Request.writes (journal w')
        = (Request.writes (journal w) ++ [("tzinfo", v)])%list)
  /\ (Request.query_ok "locale" w ->
      Request.locale_like (Request.found_value "locale" w) ->
      exists normalized,
        normalize_locale locale_exists (Request.found_value "locale" w)
        = Ok normalized
        /\ (normalized = VNone
            \/ exists language territory, normalized = VLocale language territory)
        /\ let v := match normalized with
                    | VNone => default
                    | _ => normalized
                    end in
           exists w',
             get_request_locale locale_exists default w = (Ok v, w')
             /\ attrs w' = <["locale" := v]> (attrs w)
             /\ Request.writes (journal w')
                = (Request.writes (journal w) ++ [("locale", v)])%list).
Proof.
  split.
  - intros Hq normalized v.
    destruct (found_value_run "tzinfo" w Hq) as (reads & Hreads & Hrun).
    unfold get_request_timezone. rewrite bind_assoc_run.
    unfold mbind at 1, M_bind at 1, bind at 1. rewrite Hrun.
    rewrite store_and_return. eexists. split; [reflexivity|].
    split; [reflexivity|]. cbn [journal attrs].
    rewrite !writes_app, Hreads. cbn. by rewrite app_nil_r.
  - intros Hq Hlike.
    destruct (normalize_locale_total locale_exists _ Hlike) as [n Hn].
    exists n. split; [exact Hn|].
    assert (n = VNone \/ exists language territory, n = VLocale language territory)
      as Hrange.
    { revert Hn. generalize (Request.found_value "locale" w). intros locale.
      unfold normalize_locale, Locale_or_None.
      unfold mbind, result_bind, rbind, mret, result_ret.
      repeat case_match; intros; simplify_eq; eauto. }
    split; [exact Hrange|]. intros v.
    destruct (found_value_run "locale" w Hq) as (reads & Hreads & Hrun).
    unfold get_request_locale. rewrite bind_assoc_run.
    unfold mbind at 1, M_bind at 1, bind at 1. rewrite Hrun.
    unfold mbind at 1, M_bind at 1, bind at 1, lift. rewrite Hn.
    rewrite store_and_return.
    assert (por n default = v) as ->.
    { subst v. by destruct Hrange as [-> | (l & t & ->)]. }
    eexists. split; [reflexivity|].
    split; [reflexivity|]. cbn [journal attrs].
    rewrite !writes_app, Hreads. cbn. by rewrite app_nil_r.
Qed.

Lemma request_attribute_assignment_witness :
  let w := World {[ "args" := VDict [("locale", VStr "xx-YY"); ("tzinfo", VStr "UTC")] ]} [] in
  let known := fun (language : string) (territory : option string) => false in
  let zone := fun _ : value => Some (VTzinfo "UTC") in
  (exists w',
      get_request_timezone zone (VStr "en") w = (Ok (VTzinfo "UTC"), w')
      /\ attrs w' = <["tzinfo" := VTzinfo "UTC"]> (attrs w)
      /\ Request.writes (journal w') = [("tzinfo", VTzinfo "UTC")])
  /\ (exists w',
        get_request_locale known (VStr "en") w = (Ok (VStr "en"), w')
        /\ attrs w' = <["locale" := VStr "en"]> (attrs w)
        /\ Request.writes (journal w') = [("locale", VStr "en")]).
Proof.
  cbv zeta.
  pose proof (request_attribute_assignment
                (fun (language : string) (territory : option string) => false)
                (fun _ : value => Some (VTzinfo "UTC"))
                (VStr "en")
                (World {[ "args" := VDict [("locale", VStr "xx-YY");
                                           ("tzinfo", VStr "UTC")] ]} []))
    as [Htz Hloc].
  split.
  - apply Htz. right. eexists. vm_compute. reflexivity.
  - destruct Hloc as (normalized & Hn & _ & Hrun).
    + right. eexists. vm_compute. reflexivity.
    + vm_compute. exact I.
    + vm_compute in Hn. injection Hn as <-. exact Hrun.
Defined.

(** ** The journal of a negotiation *)

Section JournalFacts.

Import Request.

Lemma werkzeug_world (w : world) :
  snd (get_werkzeug_preferred_locales w) = record (EvGet "accept_languages") w.
Proof.
  unfold get_werkzeug_preferred_locales. run_monad.
  repeat case_match; reflexivity.
Qed.

Lemma webob_extends : extends_journal get_webob_preferred_locales.
Proof.
  intros w. exists [EvGet "accept_language"].
  unfold get_webob_preferred_locales. run_monad.
  repeat case_match; reflexivity.
Qed.

Lemma django_extends : extends_journal get_django_preferred_locales.
Proof.
  intros w. unfold get_django_preferred_locales. run_monad.
  destruct (negb _); [by eexists|]. cbn [attrs journal].
  rewrite <- app_assoc.
  repeat case_match; by eexists.
Qed.

Lemma or_else_extends (probe : M (option (list string))) (rest : M (list string)) :
  extends_journal probe -> extends_journal rest ->
  extends_journal (or_else probe rest).
Proof.
  intros Hp Hr w. destruct (Hp w) as [evs Hevs].
  unfold or_else. run_monad.
  destruct (probe w) as [r w']. cbn in Hevs. subst w'.
  destruct r as [[[|x xs]|]|e]; try (by exists evs).
  all: destruct (Hr (World (attrs w) (journal w ++ evs))) as [evs' Hevs'];
    exists (evs ++ evs')%list; rewrite Hevs'; cbn [attrs journal];
    by rewrite <- app_assoc.
Qed.

Lemma ret_extends {A} (a : A) : extends_journal (mret a).
Proof.
  intros [store j]. exists []. unfold mret, M_ret, ret. cbn.
  by rewrite app_nil_r.
Qed.

(** Reading the preferences always starts by asking the request for
    its werkzeug accessor. *)
Lemma get_preferred_locales_reads (w : world) :
  exists evs,
    snd (get_preferred_locales w)
    = World (attrs w) (journal w ++ EvGet "accept_languages" :: evs).
Proof.
  pose proof (or_else_extends _ _ webob_extends
                (or_else_extends _ _ django_extends (ret_extends [])))
    as Hrest.
  pose proof (werkzeug_world w) as Hw.
  unfold get_preferred_locales. unfold or_else at 1.
  unfold mbind at 1, M_bind at 1, bind at 1.
  destruct (get_werkzeug_preferred_locales w) as [r w']. cbn in Hw. subst w'.
  destruct r as [[[|x xs]|]|e]; try (by exists []).
  all: destruct (Hrest (record (EvGet "accept_languages") w)) as [evs Hevs];
    exists evs; rewrite Hevs; unfold record; cbn [attrs journal];
    by rewrite <- app_assoc.
Qed.

(** With candidates at hand, [negotiate_locale] does read the request. *)
Lemma negotiate_locale_reads
    (Locale_negotiate : list string -> list string -> result value)
    (available_locales : value) (w : world) :
  truthy available_locales = true ->
  exists evs,
    snd (negotiate_locale Locale_negotiate available_locales w)
    = World (attrs w) (journal w ++ EvGet "accept_languages" :: evs).
Proof.
  intros Hsome. destruct (get_preferred_locales_reads w) as [evs Hevs].
  exists evs. unfold negotiate_locale. rewrite Hsome. cbn [negb]. run_monad.
  destruct (get_preferred_locales w) as [r w']. cbn in Hevs. subst w'.
  destruct r as [[|x xs]|e]; try reflexivity.
  by case_match.
Qed.

End JournalFacts.

(** ** Attributes left alone, also when an exception escapes *)

Section FrameFacts.

Variable locale_exists : string -> option string -> bool.
Variable get_timezone : value -> option value.

Lemma get_request_timezone_frame (default : value) (w : world) (other : string) :
  other <> "tzinfo" ->
  attrs (snd (get_request_timezone get_timezone default w)) !! other
  = attrs w !! other.
Proof.
  intros Hother. unfold get_request_timezone, query_get. run_monad.
  repeat case_match; simplify_eq; cbn [attrs snd];
    rewrite ?lookup_insert_ne by done; reflexivity.
Qed.

Lemma get_request_locale_frame (default : value) (w : world) (other : string) :
  other <> "locale" ->
  attrs (snd (get_request_locale locale_exists default w)) !! other
  = attrs w !! other.
Proof.
  intros Hother. unfold get_request_locale, query_get. run_monad.
  repeat case_match; simplify_eq; cbn [attrs snd];
    rewrite ?lookup_insert_ne by done; reflexivity.
Qed.

End FrameFacts.

(** * Further properties of the functions *)

(** ** Texts and tags *)

Section SegmentFacts.

Import PyStr Tag Shape.

Lemma all_chars_app (p : ascii -> bool) (a b : string) :
  all_chars p (a +:+ b) = all_chars p a && all_chars p b.
Proof.
  induction a as [|c a IH]; [reflexivity|].
  rewrite append_cons. cbn [all_chars]. by rewrite IH, andb_assoc.
Qed.

Lemma all_chars_map (p : ascii -> bool) (f : ascii -> ascii) (s : string) :
  (forall c, p (f c) = true) -> all_chars p (map_chars f s) = true.
Proof.
  intros Hc. induction s as [|c s IH]; [reflexivity|].
  cbn. by rewrite Hc, IH.
Qed.

Lemma all_chars_impl (p q : ascii -> bool) (s : string) :
  (forall c, p c = true -> q c = true) ->
  all_chars p s = true -> all_chars q s = true.
Proof.
  intros Hc. induction s as [|c s IH]; [reflexivity|].
  cbn. intros [Hp Hs]%andb_prop. by rewrite (Hc c Hp), (IH Hs).
Qed.

Lemma map_chars_fixed (f : ascii -> ascii) (s : string) :
  all_chars (fun c => Ascii.eqb (f c) c) s = true -> map_chars f s = s.
Proof.
  induction s as [|c s IH]; [reflexivity|].
  cbn. intros [Hc Hs]%andb_prop. apply Ascii.eqb_eq in Hc.
  by rewrite Hc, (IH Hs).
Qed.

(** The pieces of a split inherit what holds of every character. *)
Lemma split_all_chars (p : ascii -> bool) (sep : ascii) (s : string) :
  all_chars p s = true ->
  Forall (fun x => all_chars p x = true) (split sep s).
Proof.
  induction s as [|c s IH]; cbn [split all_chars].
  - intros _. by repeat constructor.
  - intros [Hc Hs]%andb_prop. specialize (IH Hs).
    destruct (Ascii.eqb c sep).
    + by constructor.
    + destruct (split sep s) as [|x xs]; [by repeat constructor; cbn; rewrite Hc|].
      inv IH. constructor; [cbn; by rewrite Hc|done].
Qed.

(** No piece of a split holds the separator. *)
Lemma split_pieces_no_sep (sep : ascii) (s : string) :
  Forall (fun x => all_chars (fun c => negb (Ascii.eqb c sep)) x = true)
         (split sep s).
Proof.
  induction s as [|c s IH]; cbn [split].
  - by repeat constructor.
  - destruct (Ascii.eqb c sep) eqn:Hc.
    + by constructor.
    + destruct (split sep s) as [|x xs]; [by repeat constructor; cbn; rewrite Hc|].
      inv IH. constructor; [cbn; by rewrite Hc|done].
Qed.

(** Joining the pieces with the separator gives the text back. *)
Lemma join_split (sep : ascii) (s : string) :
  join (String sep EmptyString) (split sep s) = s.
Proof.
  induction s as [|c s IH]; [reflexivity|]. cbn [split].
  destruct (Ascii.eqb c sep) eqn:Hc.
  - apply Ascii.eqb_eq in Hc as ->.
    pose proof (split_nonempty sep s) as Hne.
    destruct (split sep s) as [|x xs]; [done|].
    cbn [join] in *. by rewrite IH.
  - destruct (split sep s) as [|x xs] eqn:E; [by apply split_nonempty in E|].
    destruct xs as [|y ys]; cbn [join] in *; by rewrite <- IH.
Qed.

Lemma join_cons (sep x y : string) (rest : list string) :
  join sep (x :: y :: rest) = x +:+ sep +:+ join sep (y :: rest).
Proof. reflexivity. Qed.

Lemma append_assoc (a b c : string) : (a +:+ b) +:+ c = a +:+ (b +:+ c).
Proof.
  induction a as [|x a IH]; [reflexivity|].
  by rewrite !append_cons, IH.
Qed.

(** Splitting a join of separator-free pieces gives the pieces back. *)
Lemma split_join (sep : ascii) (xs : list string) :
  xs <> [] ->
  Forall (fun x => all_chars (fun c => negb (Ascii.eqb c sep)) x = true) xs ->
  split sep (join (String sep EmptyString) xs) = xs.
Proof.
  intros Hne Hall. induction Hall as [|x xs Hx Hxs IH]; [done|].
  destruct xs as [|y ys]; [by apply split_no_sep|].
  rewrite join_cons, append_cons, append_nil.
  rewrite (split_app_sep sep x _ Hx). by rewrite IH.
Qed.

Lemma map_chars_join (f : ascii -> ascii) (sep : ascii) (xs : list string) :
  map_chars f (join (String sep EmptyString) xs)
  = join (String (f sep) EmptyString) (map_chars f <$> xs).
Proof.
  induction xs as [|x xs IH]; [reflexivity|].
  destruct xs as [|y ys]; [reflexivity|].
  rewrite join_cons, map_chars_app, append_cons, append_nil.
  cbn [map_chars]. rewrite IH. reflexivity.
Qed.

Lemma unify_tag_chars (s : string) : unify_tag s = map_chars unify_char s.
Proof. unfold unify_tag, lower, replace. by rewrite map_chars_compose. Qed.

Local Ltac by_cases_on c :=
  destruct c as [[] [] [] [] [] [] [] []]; vm_compute; try reflexivity;
  try discriminate; intros; try reflexivity; try discriminate.

Lemma unify_char_fixed (c : ascii) :
  Ascii.eqb (unify_char (unify_char c)) (unify_char c) = true.
Proof. by_cases_on c. Qed.

Lemma unify_char_upper (c : ascii) :
  Ascii.eqb (unify_char c) c = true -> unify_char (upper_char c) = c.
Proof. by_cases_on c. Qed.

Lemma unify_char_lower_fixed (c : ascii) :
  Ascii.eqb (lower_char (unify_char c)) (unify_char c) = true.
Proof. by_cases_on c. Qed.

Lemma unify_char_no_dash (c : ascii) :
  negb (Ascii.eqb (unify_char c) "-") = true.
Proof. by_cases_on c. Qed.

Lemma upper_char_separator (c : ascii) :
  negb (is_separator c) = true -> negb (is_separator (upper_char c)) = true.
Proof. by_cases_on c. Qed.

Lemma upper_char_fixed (c : ascii) :
  Ascii.eqb (upper_char (upper_char c)) (upper_char c) = true.
Proof. by_cases_on c. Qed.

Lemma no_separator_unify (c : ascii) :
  negb (is_separator c) = true -> unify_char c = lower_char c.
Proof. by_cases_on c. Qed.

Lemma no_separator_lower (c : ascii) :
  negb (is_separator c) = true ->
  negb (Ascii.eqb (lower_char c) "_") = true.
Proof. by_cases_on c. Qed.

(** The pieces of a unified text: fixed by the unification, free of
    both separators. *)
Lemma unified_pieces (s : string) :
  Forall (fun x => all_chars (fun c => Ascii.eqb (unify_char c) c) x = true
                   /\ no_separator x = true)
         (split "_" (unify_tag s)).
Proof.
  rewrite unify_tag_chars.
  pose proof (split_all_chars (fun c => Ascii.eqb (unify_char c) c) "_"
                (map_chars unify_char s)
                (all_chars_map _ _ s unify_char_fixed)) as Hfix.
  pose proof (split_all_chars (fun c => negb (Ascii.eqb c "-")) "_"
                (map_chars unify_char s)
                (all_chars_map _ _ s unify_char_no_dash)) as Hdash.
  pose proof (split_pieces_no_sep "_" (map_chars unify_char s)) as Hsep.
  revert Hfix Hdash Hsep. generalize (split "_" (map_chars unify_char s)).
  intros xs. induction xs as [|x xs IH]; [constructor|].
  intros Hfix Hdash Hsep. inv Hfix. inv Hdash. inv Hsep.
  constructor; [|by apply IH]. split; [done|].
  unfold no_separator, is_separator.
  match goal with
  | H1 : all_chars (fun c => negb (Ascii.eqb c "-")) x = true,
    H2 : all_chars (fun c => negb (Ascii.eqb c "_")) x = true |- _ =>
      clear - H1 H2; induction x as [|c x IHx]; [reflexivity|];
      cbn in *; apply andb_prop in H1 as [Ha Hb]; apply andb_prop in H2 as [Hc Hd];
      rewrite negb_orb, Ha, Hc; cbn; by apply IHx
  end.
Qed.

Lemma split_locale_str_unfold (s : string) :
  split_locale_str s
  = let tloc := split "_" (unify_tag s) in
    if (1 <? length tloc)%nat
    then alter upper (length tloc - 1)%nat tloc
    else tloc.
Proof. reflexivity. Qed.

End SegmentFacts.

Section TagFacts.

Import PyStr Tag Shape.

Local Ltac by_cases_on c :=
  destruct c as [[] [] [] [] [] [] [] []]; vm_compute; try reflexivity;
  try discriminate; intros; try reflexivity; try discriminate.

Lemma unify_fixed_lower (c : ascii) :
  Ascii.eqb (unify_char c) c = true -> Ascii.eqb (lower_char c) c = true.
Proof. by_cases_on c. Qed.

Lemma unify_upper_piece (x : string) :
  all_chars (fun c => Ascii.eqb (unify_char c) c) x = true ->
  map_chars unify_char (upper x) = x.
Proof.
  unfold upper. rewrite map_chars_compose.
  induction x as [|c x IH]; [reflexivity|].
  cbn. intros [Hc Hx]%andb_prop. by rewrite (unify_char_upper c Hc), (IH Hx).
Qed.

Lemma fmap_unify_pieces (xs : list string) :
  Forall (fun x => all_chars (fun c => Ascii.eqb (unify_char c) c) x = true) xs ->
  map_chars unify_char <$> xs = xs.
Proof.
  induction 1 as [|x xs Hx _ IH]; [reflexivity|].
  cbn. by rewrite (map_chars_fixed _ _ Hx), IH.
Qed.

Lemma fmap_unify_alter (xs : list string) (i : nat) :
  Forall (fun x => all_chars (fun c => Ascii.eqb (unify_char c) c) x = true) xs ->
  map_chars unify_char <$> alter upper i xs = xs.
Proof.
  intros Hall. revert i. induction Hall as [|x xs Hx Hxs IH]; intros i; [reflexivity|].
  destruct i as [|i]; cbn.
  - by rewrite (unify_upper_piece x Hx), (fmap_unify_pieces xs Hxs).
  - by rewrite (map_chars_fixed _ _ Hx), IH.
Qed.

(** Unifying a serialized tag gives the unified text it was built from. *)
Lemma unify_canonical (s : string) : unify_tag (canonical s) = unify_tag s.
Proof.
  unfold canonical. rewrite split_locale_str_unfold. cbv zeta.
  assert (Forall (fun x => all_chars (fun c => Ascii.eqb (unify_char c) c) x = true)
                 (split "_" (unify_tag s))) as Hfix.
  { eapply Forall_impl; [apply unified_pieces|]. by intros x [H _]. }
  rewrite (unify_tag_chars (join _ _)), map_chars_join.
  change (unify_char "_") with "_"%char.
  destruct (1 <? length (split "_" (unify_tag s)))%nat.
  - rewrite (fmap_unify_alter _ _ Hfix). apply join_split.
  - rewrite (fmap_unify_pieces _ Hfix). apply join_split.
Qed.

Lemma split_locale_str_unified (s1 s2 : string) :
  unify_tag s1 = unify_tag s2 -> split_locale_str s1 = split_locale_str s2.
Proof. intros E. rewrite !split_locale_str_unfold. by rewrite E. Qed.

Lemma no_separator_unify_tag (s : string) :
  no_separator s = true -> unify_tag s = lower s.
Proof.
  intros Hs. rewrite unify_tag_chars. unfold lower.
  induction s as [|c s IH]; [reflexivity|].
  cbn in Hs. apply andb_prop in Hs as [Hc Hs].
  cbn. by rewrite (no_separator_unify c Hc), (IH Hs).
Qed.

Lemma no_separator_split (s : string) :
  no_separator s = true -> split_locale_str s = [lower s].
Proof.
  intros Hs. rewrite split_locale_str_unfold, (no_separator_unify_tag s Hs).
  cbv zeta. rewrite split_no_sep; [reflexivity|].
  unfold lower. clear - Hs. induction s as [|c s IH]; [reflexivity|].
  cbn in Hs. apply andb_prop in Hs as [Hc Hs].
  cbn. by rewrite (no_separator_lower c Hc), (IH Hs).
Qed.

Lemma no_separator_upper (x : string) :
  no_separator x = true -> no_separator (upper x) = true.
Proof.
  unfold no_separator, upper. induction x as [|c x IH]; [reflexivity|].
  cbn. intros [Hc Hx]%andb_prop. by rewrite (upper_char_separator c Hc), (IH Hx).
Qed.

Lemma unify_fixed_lower_piece (x : string) :
  all_chars (fun c => Ascii.eqb (unify_char c) c) x = true -> lower x = x.
Proof.
  intros Hx. apply map_chars_fixed.
  eapply all_chars_impl; [|exact Hx]. apply unify_fixed_lower.
Qed.

End TagFacts.

(** X1: a text without hyphen and underscore is one segment, and it
    comes out in lower case: the upper-casing of [split_locale] applies
    only when there are at least two segments. Its serialized tag is the
    lower-cased text, and [normalize_locale] asks the locale database for
    that language with no territory. *)
Theorem split_locale_single_segment
    (locale_exists : string -> option string -> bool) (s : string) :
  Shape.no_separator s = true ->
  split_locale (VStr s) = VSeq [VStr (PyStr.lower s)]
  /\ locale_to_str (VStr s) = Ok (PyStr.lower s)
  /\ (s <> "" ->
      normalize_locale locale_exists (VStr s)
      = Ok (Locale_or_None locale_exists (PyStr.lower s) None)).
Proof.
  intros Hs. pose proof (no_separator_split s Hs) as E.
  split; [cbn [split_locale]; by rewrite E|].
  split; [rewrite locale_to_str_text; unfold Tag.canonical; by rewrite E|].
  intros Hne. unfold normalize_locale.
  assert (truthy (VStr s) = true) as -> by (by destruct s).
  cbn [negb split_locale]. rewrite E. cbn. by rewrite lower_lower.
Qed.

Lemma split_locale_single_segment_witness :
  split_locale (VStr "EN") = VSeq [VStr "en"]
  /\ locale_to_str (VStr "EN") = Ok "en"
  /\ ("EN" <> "" ->
      normalize_locale (fun _ _ => true) (VStr "EN")
      = Ok (Locale_or_None (fun _ _ => true) "en" None)).
Proof.
  apply (split_locale_single_segment (fun _ _ => true) "EN"). reflexivity.
Defined.

(** X2: for every text, the segments that [split_locale] returns are
    never an empty tuple, hold neither hyphen nor underscore, are in
    lower case except the last, and the last is in upper case when there
    are two segments or more. *)
Theorem split_locale_segments (s : string) :
  split_locale_str s <> []
  /\ Forall (fun x => Shape.no_separator x = true) (split_locale_str s)
  /\ (forall (i : nat) (x : string),
        split_locale_str s !! i = Some x ->
        (S i < length (split_locale_str s))%nat ->
        PyStr.lower x = x)
  /\ ((1 < length (split_locale_str s))%nat ->
      forall x, last (split_locale_str s) = Some x -> PyStr.upper x = x).
Proof.
  split; [apply split_locale_str_nonempty|].
  pose proof (unified_pieces s) as Hpieces.
  rewrite split_locale_str_unfold. cbv zeta.
  destruct (1 <? length (PyStr.split "_" (unify_tag s)))%nat eqn:Hlen.
  - apply Nat.ltb_lt in Hlen. rewrite length_alter. split; [|split].
    + apply Forall_lookup. intros i x Hi.
      destruct (decide (i = length (PyStr.split "_" (unify_tag s)) - 1)%nat)
        as [->|Hd].
      * rewrite list_lookup_alter_eq in Hi.
        destruct (PyStr.split "_" (unify_tag s) !! _) as [y|] eqn:Hy; [|done].
        injection Hi as <-. apply no_separator_upper.
        by apply (Forall_lookup_1 _ _ _ _ Hpieces Hy).
      * rewrite list_lookup_alter_ne in Hi by done.
        by apply (Forall_lookup_1 _ _ _ _ Hpieces Hi).
    + intros i x Hi Hlt. rewrite list_lookup_alter_ne in Hi by lia.
      apply unify_fixed_lower_piece.
      by apply (Forall_lookup_1 _ _ _ _ Hpieces Hi).
    + intros _ x Hx. rewrite last_lookup, length_alter in Hx.
      replace (pred (length (PyStr.split "_" (unify_tag s))))
        with (length (PyStr.split "_" (unify_tag s)) - 1)%nat in Hx by lia.
      rewrite list_lookup_alter_eq in Hx.
      destruct (PyStr.split "_" (unify_tag s) !! _) as [y|]; [|done].
      injection Hx as <-. apply upper_upper.
  - apply Nat.ltb_ge in Hlen. split; [|split].
    + eapply Forall_impl; [exact Hpieces|]. by intros x [_ H].
    + intros i x Hi Hlt. lia.
    + intros Hlt. lia.
Qed.

(** X3: serializing is idempotent: the tag of a tag is the tag itself. *)
Theorem locale_to_str_idempotent (s t : string) :
  locale_to_str (VStr s) = Ok t -> locale_to_str (VStr t) = Ok t.
Proof.
  rewrite !locale_to_str_text. intros [= <-]. f_equal.
  unfold Tag.canonical at 1.
  by rewrite (split_locale_str_unified _ s (unify_canonical s)).
Qed.

Lemma locale_to_str_idempotent_witness :
  locale_to_str (VStr "en_US") = Ok "en_US".
Proof.
  apply (locale_to_str_idempotent "EN-us" "en_US"). reflexivity.
Defined.

(** X4: two ASCII texts get the same tag exactly when they are equal up
    to letter case and the choice between hyphen and underscore, that
    is, when [replace('-', '_').lower()] makes them equal. *)
Theorem locale_to_str_same_tag (s1 s2 : string) :
  Weighted.ascii_text s1 = true ->
  Weighted.ascii_text s2 = true ->
  (locale_to_str (VStr s1) = locale_to_str (VStr s2)
   <-> unify_tag s1 = unify_tag s2).
Proof.
  intros _ _. rewrite !locale_to_str_text. split.
  - intros [= E]. by rewrite <- (unify_canonical s1), E, unify_canonical.
  - intros E. unfold Tag.canonical. by rewrite (split_locale_str_unified _ _ E).
Qed.

Lemma locale_to_str_same_tag_witness :
  locale_to_str (VStr "EN-us") = locale_to_str (VStr "en_US").
Proof.
  apply (proj2 (locale_to_str_same_tag "EN-us" "en_US" eq_refl eq_refl)).
  reflexivity.
Defined.

(** X5: a locale object with a territory is serialized as its language
    in lower case, an underscore and its territory in upper case, and
    that text splits into the same tuple as the object; without
    territory the tag is the language alone. *)
Theorem locale_object_round_trip (language territory : string) :
  territory <> "" ->
  Tag.valid_language (PyStr.lower language) = true ->
  Tag.valid_region (PyStr.upper territory) = true ->
  locale_to_str (VLocale language (Some territory))
  = Ok (PyStr.lower language +:+ "_" +:+ PyStr.upper territory)
  /\ split_locale (VStr (PyStr.lower language +:+ "_" +:+ PyStr.upper territory))
     = split_locale (VLocale language (Some territory))
  /\ locale_to_str (VLocale language None) = Ok (PyStr.lower language)
  /\ locale_to_str (VLocale language (Some "")) = Ok (PyStr.lower language).
Proof.
  intros Hne Hl Hr.
  assert (String.eqb territory "" = false) as Ht by (by apply String.eqb_neq).
  split; [|split; [|split]].
  - unfold locale_to_str, split_locale, split_locale_obj. rewrite Ht.
    unfold str_join, iterate. unfold mbind, result_bind, rbind.
    by rewrite comprehension_as_text.
  - cbn [split_locale]. unfold split_locale_obj. rewrite Ht. f_equal. f_equal.
    change ("_" +:+ PyStr.upper territory) with (String "_" (PyStr.upper territory)).
    rewrite split_locale_str_pair.
    + by rewrite lower_lower, upper_upper.
    + by rewrite lower_lower.
    + by rewrite upper_upper.
    + by right.
  - reflexivity.
  - reflexivity.
Qed.

Lemma locale_object_round_trip_witness :
  locale_to_str (VLocale "pt" (Some "br")) = Ok "pt_BR"
  /\ split_locale (VStr "pt_BR") = split_locale (VLocale "pt" (Some "br"))
  /\ locale_to_str (VLocale "pt" None) = Ok "pt"
  /\ locale_to_str (VLocale "pt" (Some "")) = Ok "pt".
Proof.
  apply (locale_object_round_trip "pt" "br"); [discriminate|reflexivity|reflexivity].
Defined.

Lemma split_locale_segments_witness :
  PyStr.lower "hans" = "hans" /\ PyStr.upper "CN" = "CN".
Proof.
  split.
  - apply (proj1 (proj2 (proj2 (split_locale_segments "zh-Hans-cn"))) 1%nat);
      [reflexivity | vm_compute; lia].
  - apply (proj2 (proj2 (proj2 (split_locale_segments "zh-Hans-cn"))));
      [vm_compute; lia | reflexivity].
Defined.

(** ** Normalizing a locale *)

Section NormalizeFacts.

Import PyStr Tag Shape.

Variable locale_exists : string -> option string -> bool.

Lemma Locale_or_None_range (language : string) (territory : option string) :
  Locale_or_None locale_exists language territory = VNone
  \/ (Locale_or_None locale_exists language territory = VLocale language territory
      /\ locale_exists language territory = true).
Proof. unfold Locale_or_None. destruct (locale_exists _ _); [by right|by left]. Qed.

(** Whatever [normalize_locale] returns is [None] or a locale object. *)
Lemma normalize_locale_range (locale n : value) :
  normalize_locale locale_exists locale = Ok n -> locale_or_none n.
Proof.
  unfold normalize_locale.
  destruct (truthy locale); cbn [negb]; [|intros [= <-]; by left].
  assert (forall xs,
             (if (length xs =? 1)%nat then
                l0 ← index xs 0;
                language ← lower_method l0;
                mret (Locale_or_None locale_exists language None)
              else
                l0 ← index xs 0;
                language ← lower_method l0;
                l1 ← index xs 1;
                territory ← upper_method l1;
                mret (Locale_or_None locale_exists language (Some territory)))
             = Ok n -> locale_or_none n) as Htuple.
  { intros xs. unfold mbind, result_bind, rbind, mret, result_ret.
    repeat case_match; try discriminate; intros [= <-].
    all: match goal with
         | |- locale_or_none (Locale_or_None _ ?l ?t) =>
             destruct (Locale_or_None_range l t) as [-> | [-> _]];
               [by left | right; by eauto]
         end. }
  destruct locale as [|k|s|xs|kvs|language territory|name]; cbn [split_locale];
    try (intros [= <-]; by left); try apply Htuple.
  intros [= <-]. right. by eauto.
Qed.

End NormalizeFacts.

(** X6: on a text [normalize_locale] raises nothing, and it returns
    either [None] or a locale object that the locale database knows,
    with its language in lower case and its territory, if any, in upper
    case. *)
Theorem normalize_locale_text
    (locale_exists : string -> option string -> bool) (s : string) :
  exists n,
    normalize_locale locale_exists (VStr s) = Ok n
    /\ (n = VNone
        \/ exists language territory,
             n = VLocale language territory
             /\ locale_exists language territory = true
             /\ PyStr.lower language = language
             /\ match territory with
                | Some t => PyStr.upper t = t
                | None => True
                end).
Proof.
  unfold normalize_locale.
  destruct (truthy (VStr s)); cbn [negb]; [|exists VNone; by split; [|left]].
  cbn [split_locale].
  pose proof (split_locale_str_nonempty s) as Hne.
  destruct (split_locale_str s) as [|x0 [|x1 rest]]; [done| |].
  - cbn. exists (Locale_or_None locale_exists (PyStr.lower x0) None).
    split; [reflexivity|].
    destruct (Locale_or_None_range locale_exists (PyStr.lower x0) None)
      as [-> | [-> Hknown]]; [by left|right].
    exists (PyStr.lower x0), None.
    split; [done|]. split; [done|]. split; [apply lower_lower|done].
  - cbn. exists (Locale_or_None locale_exists (PyStr.lower x0) (Some (PyStr.upper x1))).
    split; [reflexivity|].
    destruct (Locale_or_None_range locale_exists (PyStr.lower x0) (Some (PyStr.upper x1)))
      as [-> | [-> Hknown]]; [by left|right].
    exists (PyStr.lower x0), (Some (PyStr.upper x1)).
    split; [done|]. split; [done|]. split; [apply lower_lower|].
    apply upper_upper.
Qed.

(** X7: whatever object it is given, when [normalize_locale] returns it
    returns [None] or a locale object, and normalizing that result again
    changes nothing. *)
Theorem normalize_locale_idempotent
    (locale_exists : string -> option string -> bool) (locale n : value) :
  normalize_locale locale_exists locale = Ok n ->
  Shape.locale_or_none n
  /\ normalize_locale locale_exists n = Ok n.
Proof.
  intros Hn. pose proof (normalize_locale_range locale_exists locale n Hn) as Hr.
  split; [exact Hr|]. by destruct Hr as [-> | (l & t & ->)].
Qed.

Lemma normalize_locale_idempotent_witness :
  Shape.locale_or_none (VLocale "en" (Some "US"))
  /\ normalize_locale (fun _ _ => true) (VLocale "en" (Some "US"))
     = Ok (VLocale "en" (Some "US")).
Proof.
  apply (normalize_locale_idempotent (fun _ _ => true) (VStr "en-us")).
  reflexivity.
Defined.

(** X8: of a text with two segments or more, [normalize_locale] uses the
    first segment as language and the second, in upper case, as
    territory; a third and later segments play no part (it is the last
    segment that [split_locale] upper-cases, but the second that is
    passed on). *)
Theorem normalize_locale_second_segment
    (locale_exists : string -> option string -> bool)
    (s x0 x1 : string) (rest : list string) :
  PyStr.split "_" (unify_tag s) = x0 :: x1 :: rest ->
  normalize_locale locale_exists (VStr s)
  = Ok (Locale_or_None locale_exists x0 (Some (PyStr.upper x1))).
Proof.
  intros Hsplit.
  pose proof (unified_pieces s) as Hpieces. rewrite Hsplit in Hpieces.
  assert (PyStr.lower x0 = x0) as Hx0.
  { inv Hpieces. apply unify_fixed_lower_piece. tauto. }
  assert (truthy (VStr s) = true) as Htruthy.
  { destruct s; [|reflexivity]. discriminate Hsplit. }
  unfold normalize_locale. rewrite Htruthy. cbn [negb split_locale].
  rewrite split_locale_str_unfold, Hsplit. cbv zeta.
  destruct rest as [|r rs]; cbn.
  - by rewrite Hx0, upper_upper.
  - by rewrite Hx0.
Qed.

Lemma normalize_locale_second_segment_witness :
  normalize_locale (fun _ _ => true) (VStr "zh-Hans-CN")
  = Ok (Locale_or_None (fun _ _ => true) "zh" (Some "HANS")).
Proof.
  apply (normalize_locale_second_segment (fun _ _ => true) "zh-Hans-CN" "zh" "hans" ["cn"]).
  reflexivity.
Defined.

(** ** More on the raw header *)

Section HeaderShapeFacts.

Import PyStr Tag.

Lemma sorted_permutation (xs ys : list (list string)) :
  xs ≡ₚ ys -> sorted xs = sorted ys.
Proof.
  intros Hperm. apply sorted_unique.
  - rewrite <- Hperm. apply merge_sort_Permutation.
  - apply StronglySorted_merge_sort; apply _.
Qed.

Lemma comprehension_length {A B} (f : A -> result B) (xs : list A) (ys : list B) :
  comprehension f xs = Ok ys -> length ys = length xs.
Proof.
  revert ys. induction xs as [|x xs IH]; intros ys; cbn [comprehension].
  - by intros [= <-].
  - unfold mbind, result_bind, rbind, mret, result_ret.
    destruct (f x) as [y|e]; [|done].
    destruct (comprehension f xs) as [ys'|e]; [|done].
    intros [= <-]. cbn. by rewrite (IH ys' eq_refl).
Qed.

Lemma split_length_pos (sep : ascii) (s : string) : (0 < length (split sep s))%nat.
Proof.
  pose proof (split_nonempty sep s). destruct (split sep s); [done|cbn; lia].
Qed.

Lemma entry_tag_raises_index (e : list string) (x : exn) :
  entry_tag e = Raise x -> x = IndexError.
Proof.
  destruct (decide (2 <= length e)%nat) as [Hlong|Hshort].
  - by rewrite (entry_tag_ok e Hlong).
  - rewrite (entry_tag_short e) by lia. by intros [= <-].
Qed.

Lemma sorted_reversed_length (xs : list (list string)) :
  length (reverse (sorted xs)) = length xs.
Proof. by rewrite (proj1 (sorted_reversed xs)). Qed.

Lemma parse_accept_language_length (header : string) (out : list string) :
  parse_accept_language header = Ok out ->
  length out = length (split "," header)
  /\ Forall (fun e => (2 <= length e)%nat) (parse_entries header).
Proof.
  destruct (decide (Forall (fun e => (2 <= length e)%nat) (parse_entries header)))
    as [Hall|Hnot].
  - rewrite (parse_accept_language_ok header Hall). intros [= <-].
    split; [|exact Hall].
    rewrite length_fmap, sorted_reversed_length. unfold parse_entries.
    by rewrite length_fmap.
  - apply not_Forall_Exists in Hnot; [|apply _].
    rewrite parse_accept_language_raise; [done|].
    eapply Exists_impl; [exact Hnot|]. intros e He. cbn in He. lia.
Qed.

End HeaderShapeFacts.

(** X9: the position of an entry in the header plays no part: two
    headers whose comma-separated entries are the same up to their order
    give the same result, list or exception. *)
Theorem parse_accept_language_order_irrelevant (h1 h2 : string) :
  PyStr.split "," h1 ≡ₚ PyStr.split "," h2 ->
  parse_accept_language h1 = parse_accept_language h2.
Proof.
  intros Hperm. unfold parse_accept_language. cbv zeta.
  rewrite (sorted_permutation (parse_entries h1) (parse_entries h2));
    [reflexivity|].
  unfold parse_entries. by rewrite Hperm.
Qed.

Lemma parse_accept_language_order_irrelevant_witness :
  parse_accept_language "en;q=0.8,fr;q=0.9"
  = parse_accept_language "fr;q=0.9,en;q=0.8".
Proof.
  apply (parse_accept_language_order_irrelevant "en;q=0.8,fr;q=0.9" "fr;q=0.9,en;q=0.8").
  vm_compute. apply perm_swap.
Defined.

(** X10: when the header is read without error, every comma-separated
    entry had a [;] and the result has exactly one tag per entry (nothing
    is dropped or merged); and the only exception the reading can raise
    is [IndexError]. *)
Theorem parse_accept_language_outcome (header : string) :
  (forall out,
      parse_accept_language header = Ok out ->
      length out = length (PyStr.split "," header)
      /\ Forall (fun l => Tag.all_chars (fun c => negb (Ascii.eqb c ";"))
                            (PyStr.strip l) = false)
                (PyStr.split "," header))
  /\ (forall e, parse_accept_language header = Raise e -> e = IndexError).
Proof.
  split.
  - intros out Hok.
    destruct (parse_accept_language_length header out Hok) as [Hlen Hall].
    split; [exact Hlen|]. unfold parse_entries in Hall.
    apply (Forall_fmap (fun l => reverse (PyStr.split ";" (PyStr.strip l)))) in Hall.
    eapply Forall_impl; [exact Hall|]. intros l Hl. cbn in Hl.
    destruct (Tag.all_chars _ (PyStr.strip l)) eqn:E; [|reflexivity].
    pose proof (plain_entry_short l E). lia.
  - intros e. unfold parse_accept_language. cbv zeta.
    generalize (reverse (sorted (parse_entries header))). intros entries.
    revert e. induction entries as [|x entries IH]; intros e; cbn [comprehension];
      [done|].
    unfold mbind, result_bind, rbind, mret, result_ret.
    destruct (entry_tag x) as [t|e'] eqn:Et.
    + destruct (comprehension entry_tag entries) as [ts|e'']; [done|].
      intros [= <-]. by apply IH.
    + intros [= <-]. by apply (entry_tag_raises_index x).
Qed.

Lemma parse_accept_language_outcome_witness :
  length ["en"; "fr"] = length (PyStr.split "," "fr;q=0.5,en;q=0.9")
  /\ Forall (fun l => Tag.all_chars (fun c => negb (Ascii.eqb c ";"))
                        (PyStr.strip l) = false)
            (PyStr.split "," "fr;q=0.5,en;q=0.9").
Proof.
  apply (proj1 (parse_accept_language_outcome "fr;q=0.5,en;q=0.9")).
  vm_compute. reflexivity.
Defined.

(** ** The three probes *)

Section ProbeFacts.

Import Request Shape.

Lemma comprehension_locale_to_str_texts (tags : list string) :
  comprehension locale_to_str (VStr <$> tags) = Ok (Tag.canonical <$> tags).
Proof.
  induction tags as [|t tags IH]; [reflexivity|].
  cbn [fmap list_fmap comprehension]. rewrite locale_to_str_text.
  unfold mbind, result_bind, rbind in *. cbn [fmap list_fmap] in IH.
  by rewrite IH.
Qed.

Lemma comprehension_as_text_error (xs : list value) (e : exn) :
  comprehension as_text xs = Raise e -> e = TypeError.
Proof.
  induction xs as [|x xs IH]; cbn [comprehension]; [done|].
  unfold mbind, result_bind, rbind, mret, result_ret.
  destruct x; cbn; try (by intros [= <-]).
  destruct (comprehension as_text xs); [done|]. intros [= <-]. by apply IH.
Qed.

(** Serializing fails with [TypeError] only. *)
Lemma locale_to_str_error (v : value) (e : exn) :
  locale_to_str v = Raise e -> e = TypeError.
Proof.
  unfold locale_to_str, str_join.
  destruct v as [|k|s|xs|kvs|language territory|name]; cbn [split_locale iterate];
    unfold mbind, result_bind, rbind, mret, result_ret;
    try (by intros [= <-]).
  - by rewrite comprehension_as_text.
  - destruct (comprehension as_text xs) eqn:E; [done|]. intros [= <-].
    by apply (comprehension_as_text_error xs).
  - by rewrite comprehension_as_text.
  - by rewrite comprehension_as_text.
Qed.

Lemma locale_to_str_untagged (v : value) :
  untagged v = true -> locale_to_str v = Raise TypeError.
Proof. by destruct v. Qed.

Lemma comprehension_raise {A B} (f : A -> result B) (xs : list A) (err : exn) :
  (forall x e, f x = Raise e -> e = err) ->
  Exists (fun x => f x = Raise err) xs ->
  comprehension f xs = Raise err.
Proof.
  intros Honly. induction 1 as [x xs Hx|x xs _ IH]; cbn [comprehension];
    unfold mbind, result_bind, rbind.
  - by rewrite Hx.
  - destruct (f x) as [y|e] eqn:E; [by rewrite IH|].
    by rewrite (Honly x e E).
Qed.

Lemma read_only_ret {A} (a : A) : read_only (mret a).
Proof.
  intros [store j]. exists []. split; [reflexivity|].
  unfold mret, M_ret, ret. cbn. by rewrite app_nil_r.
Qed.

Lemma read_only_lift {A} (r : result A) : read_only (lift r).
Proof.
  intros [store j]. exists []. split; [reflexivity|].
  unfold lift. cbn. by rewrite app_nil_r.
Qed.

Lemma read_only_getattr (name : string) (dflt : value) :
  read_only (getattr name dflt).
Proof. intros w. by exists [EvGet name]. Qed.

Lemma read_only_attr (name : string) : read_only (attr name).
Proof. intros w. by exists [EvGet name]. Qed.

Lemma read_only_bind {A B} (m : M A) (k : A -> M B) :
  read_only m -> (forall a, read_only (k a)) -> read_only (m ≫= k).
Proof.
  intros Hm Hk w. destruct (Hm w) as (evs1 & Hw1 & E1).
  unfold mbind, M_bind, bind. destruct (m w) as [[a|e] w']; cbn in E1; subst w'.
  - destruct (Hk a (World (attrs w) (journal w ++ evs1))) as (evs2 & Hw2 & E2).
    exists (evs1 ++ evs2)%list. split; [by rewrite writes_app, Hw1, Hw2|].
    rewrite E2. cbn [attrs journal]. by rewrite app_assoc.
  - by exists evs1.
Qed.

Lemma werkzeug_read_only : read_only get_werkzeug_preferred_locales.
Proof.
  unfold get_werkzeug_preferred_locales.
  apply read_only_bind; [apply read_only_getattr|]. intros v.
  destruct (truthy v); [|apply read_only_ret].
  apply read_only_bind; [apply read_only_lift|]. intros ls. apply read_only_ret.
Qed.

Lemma webob_read_only : read_only get_webob_preferred_locales.
Proof.
  unfold get_webob_preferred_locales.
  apply read_only_bind; [apply read_only_getattr|]. intros v.
  destruct (truthy v); [|apply read_only_ret].
  apply read_only_bind; [apply read_only_lift|]. intros ls. apply read_only_ret.
Qed.

Lemma django_read_only : read_only get_django_preferred_locales.
Proof.
  unfold get_django_preferred_locales.
  apply read_only_bind; [apply read_only_getattr|]. intros meta.
  destruct (negb (truthy meta)); [apply read_only_ret|].
  apply read_only_bind; [apply read_only_attr|]. intros meta'.
  apply read_only_bind; [apply read_only_lift|]. intros header.
  destruct (truthy header); [|apply read_only_ret].
  destruct header; try apply read_only_lift.
  apply read_only_bind; [apply read_only_lift|]. intros ls. apply read_only_ret.
Qed.

Lemma or_else_read_only (probe : M (option (list string))) (rest : M (list string)) :
  read_only probe -> read_only rest -> read_only (or_else probe rest).
Proof.
  intros Hp Hr. unfold or_else. apply read_only_bind; [exact Hp|].
  intros [[|x xs]|]; try exact Hr. apply read_only_ret.
Qed.

Lemma get_preferred_locales_read_only : read_only get_preferred_locales.
Proof.
  unfold get_preferred_locales.
  repeat apply or_else_read_only;
    auto using werkzeug_read_only, webob_read_only, django_read_only.
  apply read_only_ret.
Qed.

(** The werkzeug probe on a request. *)
Lemma werkzeug_run (w : world) :
  get_werkzeug_preferred_locales w
  = (let languages := attr_or "accept_languages" VNone w in
     if truthy languages then
       ls ← (vals ← mapping_values languages; comprehension locale_to_str vals);
       mret (Some ls)
     else mret None,
     record (EvGet "accept_languages") w).
Proof.
  unfold get_werkzeug_preferred_locales, attr_or. run_monad. cbv zeta.
  destruct (truthy _); [|reflexivity].
  unfold result_bind, rbind, mret, result_ret.
  repeat case_match; simplify_eq; reflexivity.
Qed.

(** The webob probe on a request. *)
Lemma webob_run (w : world) :
  get_webob_preferred_locales w
  = (let languages := attr_or "accept_language" VNone w in
     if truthy languages then
       ls ← (items ← iterate languages; comprehension locale_to_str items);
       mret (Some ls)
     else mret None,
     record (EvGet "accept_language") w).
Proof.
  unfold get_webob_preferred_locales, attr_or. run_monad. cbv zeta.
  destruct (truthy _); [|reflexivity].
  unfold result_bind, rbind, mret, result_ret.
  repeat case_match; simplify_eq; reflexivity.
Qed.

End ProbeFacts.

(** X11: the Django probe never returns an empty list: when it returns
    a list, the request's [META] holds a non-empty header text and the
    list has one tag for each comma-separated entry of that header, so
    at least one. *)
Theorem django_probe_never_returns_empty_list (w : world) (l : list string) :
  fst (get_django_preferred_locales w) = Ok (Some l) ->
  exists (kvs : list (string * value)) (header : string),
    attrs w !! "META" = Some (VDict kvs)
    /\ assoc "HTTP_ACCEPT_LANGUAGE" kvs = Some (VStr header)
    /\ header <> ""
    /\ length l = length (PyStr.split "," header)
    /\ l <> [].
Proof.
  intros H. unfold get_django_preferred_locales in H. revert H. run_monad.
  destruct (attrs w !! "META") as [meta|] eqn:Hmeta; cbn [truthy negb]; [|done].
  destruct (truthy meta) eqn:Htruthy; cbn [negb]; [|done].
  cbn [attrs journal]. rewrite Hmeta.
  destruct meta as [|k|s|xs|kvs|? ?|?]; cbn [mapping_get]; try done.
  destruct (assoc "HTTP_ACCEPT_LANGUAGE" kvs) as [h|] eqn:Hget; [|done].
  destruct (truthy h) eqn:Hh; [|done].
  destruct h as [|k|header|xs|kvs'|? ?|?]; try done.
  destruct (parse_accept_language header) as [ls|e] eqn:Hparse; [|done].
  cbn [fst]. intros [= ->].
  destruct (parse_accept_language_length header l Hparse) as [Hlen _].
  pose proof (split_length_pos "," header) as Hpos.
  exists kvs, header. split; [done|]. split; [done|].
  split; [by destruct header|]. split; [exact Hlen|].
  intros ->. cbn in Hlen. lia.
Qed.

Lemma django_probe_never_returns_empty_list_witness :
  exists (kvs : list (string * value)) (header : string),
    attrs (django_request "fr;q=0.5,en;q=0.9") !! "META" = Some (VDict kvs)
    /\ assoc "HTTP_ACCEPT_LANGUAGE" kvs = Some (VStr header)
    /\ header <> ""
    /\ length ["en"; "fr"] = length (PyStr.split "," header)
    /\ ["en"; "fr"] <> [].
Proof.
  apply (django_probe_never_returns_empty_list (django_request "fr;q=0.5,en;q=0.9")).
  vm_compute. reflexivity.
Defined.

Section PrecedenceFacts.

Import Request Shape.

(** The chain [a or b] when the first probe gave a list. *)
Lemma or_else_hit (probe : M (option (list string))) (rest : M (list string))
    (w w' : world) (x : string) (xs : list string) :
  probe w = (Ok (Some (x :: xs)), w') ->
  or_else probe rest w = (Ok (x :: xs), w').
Proof. intros H. unfold or_else, mbind, M_bind, bind. by rewrite H. Qed.

(** The chain [a or b] when the first probe raised. *)
Lemma or_else_raise (probe : M (option (list string))) (rest : M (list string))
    (w w' : world) (e : exn) :
  probe w = (Raise e, w') -> or_else probe rest w = (Raise e, w').
Proof. intros H. unfold or_else, mbind, M_bind, bind. by rewrite H. Qed.

(** The chain [a or b] when the first probe gave [None]. *)
Lemma or_else_miss (probe : M (option (list string))) (rest : M (list string))
    (w w' : world) :
  probe w = (Ok None, w') -> or_else probe rest w = rest w'.
Proof. intros H. unfold or_else, mbind, M_bind, bind. by rewrite H. Qed.

Lemma negotiate_locale_read_only
    (Locale_negotiate : list string -> list string -> result value)
    (available_locales : value) :
  read_only (negotiate_locale Locale_negotiate available_locales).
Proof.
  unfold negotiate_locale.
  destruct (negb (truthy available_locales)); [apply read_only_ret|].
  apply read_only_bind; [apply get_preferred_locales_read_only|].
  intros [|x xs]; [apply read_only_ret|].
  apply read_only_bind; [apply read_only_lift|]. intros. apply read_only_lift.
Qed.

End PrecedenceFacts.

(** X12: the werkzeug accessor comes first: when [accept_languages] is
    a non-empty accessor whose values are texts, the result is the list
    of their tags in the accessor's order, and neither [accept_language]
    nor [META] is read. *)
Theorem werkzeug_accessor_first
    (w : world) (kvs : list (string * value)) (tags : list string) :
  attrs w !! "accept_languages" = Some (VDict kvs) ->
  kvs.*2 = VStr <$> tags ->
  tags <> [] ->
  get_preferred_locales w
  = (Ok (Tag.canonical <$> tags), record (EvGet "accept_languages") w).
Proof.
  intros Hattr Hvals Hne. unfold get_preferred_locales.
  destruct tags as [|t tags]; [done|].
  apply or_else_hit. rewrite werkzeug_run. unfold Request.attr_or. rewrite Hattr.
  cbv zeta. assert (truthy (VDict kvs) = true) as ->.
  { destruct kvs; [done|reflexivity]. }
  cbn [mapping_values]. unfold mbind, result_bind, rbind, mret, result_ret.
  rewrite Hvals, comprehension_locale_to_str_texts. reflexivity.
Qed.

Lemma werkzeug_accessor_first_witness :
  let w := World {[ "accept_languages" := Shape.accept ["pt-br"; "EN"] ]} [] in
  get_preferred_locales w
  = (Ok (Tag.canonical <$> ["pt-br"; "EN"]), record (EvGet "accept_languages") w).
Proof.
  cbv zeta.
  apply (werkzeug_accessor_first _ ((fun t => (t, VStr t)) <$> ["pt-br"; "EN"]));
    [apply lookup_singleton_eq | reflexivity | discriminate].
Defined.

(** X13: the webob accessor comes second: when [accept_languages] is
    absent or empty and [accept_language] is a non-empty list of texts,
    the result is the list of their tags in the same order, and [META]
    is not read. *)
Theorem webob_accessor_second (w : world) (tags : list string) :
  Request.silent "accept_languages" w ->
  attrs w !! "accept_language" = Some (Shape.texts tags) ->
  tags <> [] ->
  get_preferred_locales w
  = (Ok (Tag.canonical <$> tags),
     record (EvGet "accept_language") (record (EvGet "accept_languages") w)).
Proof.
  intros Hsilent Hattr Hne. unfold get_preferred_locales.
  rewrite (or_else_miss _ _ _ _ (werkzeug_silent w Hsilent)).
  destruct tags as [|t tags]; [done|].
  apply or_else_hit. rewrite webob_run. unfold Request.attr_or.
  cbn [attrs record]. rewrite Hattr. cbv zeta. unfold Shape.texts.
  assert (truthy (VSeq (VStr <$> t :: tags)) = true) as -> by reflexivity.
  cbn [iterate]. unfold mbind, result_bind, rbind, mret, result_ret.
  rewrite comprehension_locale_to_str_texts. reflexivity.
Qed.

Lemma webob_accessor_second_witness :
  let w := World {[ "accept_language" := Shape.texts ["pt-br"; "EN"] ]} [] in
  get_preferred_locales w
  = (Ok (Tag.canonical <$> ["pt-br"; "EN"]),
     record (EvGet "accept_language") (record (EvGet "accept_languages") w)).
Proof.
  cbv zeta. apply (webob_accessor_second _ ["pt-br"; "EN"]);
    [vm_compute; exact I | apply lookup_singleton_eq | discriminate].
Defined.

(** X14: a non-empty [accept_languages] attribute that is not a mapping
    (a plain list or a text, say) makes [get_preferred_locales] raise
    [AttributeError]; the other sources are not tried. *)
Theorem werkzeug_accessor_without_values (w : world) (v : value) :
  attrs w !! "accept_languages" = Some v ->
  truthy v = true ->
  (forall kvs, v <> VDict kvs) ->
  get_preferred_locales w
  = (Raise AttributeError, record (EvGet "accept_languages") w).
Proof.
  intros Hattr Htruthy Hnot. unfold get_preferred_locales.
  apply or_else_raise. rewrite werkzeug_run. unfold Request.attr_or.
  rewrite Hattr. cbv zeta. rewrite Htruthy.
  destruct v; try reflexivity. by destruct (Hnot kvs).
Qed.

Lemma werkzeug_accessor_without_values_witness :
  let w := World {[ "accept_languages" := Shape.texts ["en"] ]} [] in
  get_preferred_locales w
  = (Raise AttributeError, record (EvGet "accept_languages") w).
Proof.
  cbv zeta. apply (werkzeug_accessor_without_values _ (Shape.texts ["en"]));
    [apply lookup_singleton_eq | reflexivity | discriminate].
Defined.

(** X15: when the webob accessor is a list and one of its items is
    [None], a number or a time zone, [get_preferred_locales] raises
    [TypeError]: the item is not skipped and the header is not tried. *)
Theorem webob_item_without_tag (w : world) (xs : list value) :
  Request.silent "accept_languages" w ->
  attrs w !! "accept_language" = Some (VSeq xs) ->
  Exists (fun x => Shape.untagged x = true) xs ->
  get_preferred_locales w
  = (Raise TypeError,
     record (EvGet "accept_language") (record (EvGet "accept_languages") w)).
Proof.
  intros Hsilent Hattr Hex. unfold get_preferred_locales.
  rewrite (or_else_miss _ _ _ _ (werkzeug_silent w Hsilent)).
  apply or_else_raise. rewrite webob_run. unfold Request.attr_or.
  cbn [attrs record]. rewrite Hattr. cbv zeta.
  assert (truthy (VSeq xs) = true) as -> by (by destruct Hex).
  cbn [iterate]. unfold mbind, result_bind, rbind, mret, result_ret.
  rewrite (comprehension_raise locale_to_str xs TypeError); [reflexivity| |].
  - apply locale_to_str_error.
  - eapply Exists_impl; [exact Hex|]. intros x. apply locale_to_str_untagged.
Qed.

Lemma webob_item_without_tag_witness :
  let w := World {[ "accept_language" := VSeq [VStr "en"; VNone] ]} [] in
  get_preferred_locales w
  = (Raise TypeError,
     record (EvGet "accept_language") (record (EvGet "accept_languages") w)).
Proof.
  cbv zeta. apply (webob_item_without_tag _ [VStr "en"; VNone]);
    [vm_compute; exact I | apply lookup_singleton_eq |].
  apply Exists_cons_tl, Exists_cons_hd. reflexivity.
Defined.

(** X16: [get_preferred_locales] and [negotiate_locale] never assign to
    the request: whatever they return or raise, every attribute keeps its
    value and the journal grows by reads only. *)
Theorem preferences_read_only
    (Locale_negotiate : list string -> list string -> result value)
    (available_locales : value) :
  Shape.read_only get_preferred_locales
  /\ Shape.read_only (negotiate_locale Locale_negotiate available_locales).
Proof.
  split; [apply get_preferred_locales_read_only|apply negotiate_locale_read_only].
Qed.

(** ** Negotiation *)

Section NegotiationFacts.

Import PyStr Tag Shape Request.

Local Ltac by_cases_on c :=
  destruct c as [[] [] [] [] [] [] [] []]; vm_compute; try reflexivity;
  try discriminate; intros; try reflexivity; try discriminate.

Lemma unify_char_lower (c : ascii) : unify_char (lower_char c) = unify_char c.
Proof. by_cases_on c. Qed.

Lemma unify_tag_lower (s : string) : unify_tag (lower s) = unify_tag s.
Proof.
  rewrite !unify_tag_chars. unfold lower. rewrite map_chars_compose.
  induction s as [|c s IH]; [reflexivity|].
  cbn. by rewrite unify_char_lower, IH.
Qed.

Lemma comprehension_unify_texts (cands : list string) :
  comprehension (fun l => s ← lower_method l; mret (unify_tag s)) (VStr <$> cands)
  = Ok (unify_tag <$> cands).
Proof.
  induction cands as [|c cands IH]; [reflexivity|].
  cbn [fmap list_fmap comprehension lower_method].
  unfold mbind, result_bind, rbind, mret, result_ret in *.
  cbn [fmap list_fmap] in IH. by rewrite IH, unify_tag_lower.
Qed.

(** The chain of probes on a request that has no preference at all. *)
Lemma get_preferred_locales_silent (w : world) :
  silent "accept_languages" w ->
  silent "accept_language" w ->
  no_header w ->
  exists reads,
    writes reads = []
    /\ get_preferred_locales w = (Ok [], World (attrs w) (journal w ++ reads)).
Proof.
  intros H1 H2 H3.
  destruct (get_preferred_locales_read_only w) as (reads & Hreads & Hworld).
  exists reads. split; [exact Hreads|].
  destruct (get_preferred_locales w) as [r w'] eqn:E. cbn in Hworld. subst w'.
  f_equal. revert E. unfold get_preferred_locales.
  rewrite (or_else_miss _ _ _ _ (werkzeug_silent w H1)).
  rewrite (or_else_miss _ _ _ _
             (webob_silent (record (EvGet "accept_languages") w) H2)).
  destruct (django_silent
              (record (EvGet "accept_language") (record (EvGet "accept_languages") w)) H3)
    as [evs Hd].
  rewrite (or_else_miss _ _ _ _ Hd). by intros [= <- _].
Qed.

End NegotiationFacts.

(** X17: when the request states no preference (the three sources are
    absent or empty), [negotiate_locale] answers [None] without looking
    at the candidates: even a candidate collection that cannot be
    iterated raises nothing. *)
Theorem negotiate_locale_without_preferences
    (Locale_negotiate : list string -> list string -> result value)
    (available_locales : value) (w : world) :
  Request.silent "accept_languages" w ->
  Request.silent "accept_language" w ->
  Request.no_header w ->
  exists reads,
    Request.writes reads = []
    /\ negotiate_locale Locale_negotiate available_locales w
       = (Ok VNone, World (attrs w) (journal w ++ reads)).
Proof.
  intros H1 H2 H3. unfold negotiate_locale.
  destruct (negb (truthy available_locales)).
  - exists []. split; [reflexivity|]. destruct w as [store j].
    unfold mret, M_ret, ret. cbn. by rewrite app_nil_r.
  - destruct (get_preferred_locales_silent w H1 H2 H3) as (reads & Hreads & Hrun).
    exists reads. split; [exact Hreads|].
    unfold mbind, M_bind, bind. by rewrite Hrun.
Qed.

Lemma negotiate_locale_without_preferences_witness :
  exists reads,
    Request.writes reads = []
    /\ negotiate_locale (fun _ _ => Ok (VLocale "en" None)) (VInt 5) (World ∅ [])
       = (Ok VNone, World ∅ ([] ++ reads)).
Proof.
  apply (negotiate_locale_without_preferences
           (fun _ _ => Ok (VLocale "en" None)) (VInt 5) (World ∅ []));
    vm_compute; exact I.
Defined.

(** X18: when the request states preferences and the candidates are a
    non-empty list of texts, the locale library is asked with both lists
    rewritten by [replace('-', '_').lower()], each in its order, and its
    answer is passed on as it is: the locale or [None] it returns, or the
    exception it raises ([UnknownLocaleError], [ValueError]), which is
    not caught. The request is only read. *)
Theorem negotiate_locale_unifies_both_lists
    (Locale_negotiate : list string -> list string -> result value)
    (w w' : world) (preferred candidates : list string) :
  get_preferred_locales w = (Ok preferred, w') ->
  preferred <> [] ->
  candidates <> [] ->
  negotiate_locale Locale_negotiate (Shape.texts candidates) w
  = (Locale_negotiate (unify_tag <$> preferred) (unify_tag <$> candidates), w').
Proof.
  intros Hrun Hp Hc. unfold negotiate_locale, Shape.texts.
  assert (truthy (VSeq (VStr <$> candidates)) = true) as ->
    by (by destruct candidates).
  cbn [negb]. unfold mbind at 1, M_bind at 1, bind at 1. rewrite Hrun.
  destruct preferred as [|p ps]; [done|].
  cbn [iterate]. unfold lift. unfold mbind at 1, M_bind at 1, bind at 1.
  unfold mbind at 1, result_bind at 1, rbind at 1.
  rewrite comprehension_unify_texts. reflexivity.
Qed.

Lemma negotiate_locale_unifies_both_lists_witness :
  let w := World {[ "accept_language" := Shape.texts ["xx-YY"] ]} [] in
  let library := fun (preferred available : list string) =>
                   if decide (preferred = ["xx_yy"] /\ available = ["xx_yy"; "fr"])
                   then Raise UnknownLocaleError
                   else Ok VNone in
  negotiate_locale library (Shape.texts ["xx_YY"; "fr"]) w
  = (Raise UnknownLocaleError,
     record (EvGet "accept_language") (record (EvGet "accept_languages") w)).
Proof.
  cbv zeta.
  etrans.
  - apply (negotiate_locale_unifies_both_lists _
             (World {[ "accept_language" := Shape.texts ["xx-YY"] ]} [])
             (record (EvGet "accept_language")
                (record (EvGet "accept_languages")
                   (World {[ "accept_language" := Shape.texts ["xx-YY"] ]} [])))
             ["xx_YY"] ["xx_YY"; "fr"]);
      [|discriminate|discriminate].
    vm_compute. reflexivity.
  - vm_compute. reflexivity.
Defined.

(** ** More on the request attributes *)

Section CacheFacts.

Import Request Shape.

Lemma journal_three (j : list event) (a b c : event) :
  (((j ++ [a]) ++ [b]) ++ [c])%list = (j ++ [a; b; c])%list.
Proof. by rewrite <- !app_assoc. Qed.

End CacheFacts.

(** X19: a request that already carries a locale object in [locale], or
    a time zone object in [tzinfo], gets that object back: the query
    arguments are not read, the default is ignored, the locale database
    is not asked, and the attributes are left as they were. *)
Theorem request_objects_are_kept
    (locale_exists : string -> option string -> bool)
    (get_timezone : value -> option value)
    (default : value) (w : world) :
  (forall language territory,
      attrs w !! "locale" = Some (VLocale language territory) ->
      get_request_locale locale_exists default w
      = (Ok (VLocale language territory),
         World (attrs w)
           (journal w ++ [EvGet "locale";
                          EvSet "locale" (VLocale language territory);
                          EvGet "locale"])))
  /\ (forall name,
        attrs w !! "tzinfo" = Some (VTzinfo name) ->
        get_request_timezone get_timezone default w
        = (Ok (VTzinfo name),
           World (attrs w)
             (journal w ++ [EvGet "tzinfo";
                            EvSet "tzinfo" (VTzinfo name);
                            EvGet "tzinfo"]))).
Proof.
  split.
  - intros language territory Hattr. unfold get_request_locale. run_monad.
    rewrite Hattr. cbn [truthy]. unfold normalize_locale, por. cbn [truthy negb].
    cbn [attrs journal]. rewrite lookup_insert_eq, journal_three.
    by rewrite (insert_id _ _ _ Hattr).
  - intros name Hattr. unfold get_request_timezone. run_monad.
    rewrite Hattr. cbn [truthy]. unfold normalize_timezone, por. cbn [truthy negb].
    cbn [attrs journal]. rewrite lookup_insert_eq, journal_three.
    by rewrite (insert_id _ _ _ Hattr).
Qed.

Lemma request_objects_are_kept_witness :
  let w := World {[ "locale" := VLocale "xx" None ]} [] in
  get_request_locale (fun _ _ => false) (VStr "en") w
  = (Ok (VLocale "xx" None),
     World (attrs w)
       (journal w ++ [EvGet "locale"; EvSet "locale" (VLocale "xx" None);
                      EvGet "locale"])).
Proof.
  cbv zeta.
  apply (proj1 (request_objects_are_kept (fun _ _ => false) (fun _ => None)
                  (VStr "en") (World {[ "locale" := VLocale "xx" None ]} []))).
  apply lookup_singleton_eq.
Defined.

(** X20: a request that has an [args] attribute never has its [GET]
    attribute used: with or without [GET], and whatever [GET] holds, both
    functions give the same result. *)
Theorem args_shadows_GET
    (locale_exists : string -> option string -> bool)
    (get_timezone : value -> option value)
    (default args : value) (w : world) :
  attrs w !! "args" = Some args ->
  fst (get_request_locale locale_exists default w)
  = fst (get_request_locale locale_exists default (Request.without "GET" w))
  /\ fst (get_request_timezone get_timezone default w)
     = fst (get_request_timezone get_timezone default (Request.without "GET" w)).
Proof.
  intros Hargs. split.
  - unfold get_request_locale, query_get, Request.without. run_monad.
    rewrite !lookup_delete_ne by done.
    destruct (truthy _); cbn [attrs journal].
    + destruct (normalize_locale _ _); cbn [attrs fst]; [|reflexivity].
      by rewrite !lookup_insert_eq.
    + rewrite !lookup_delete_ne by done. rewrite !Hargs.
      destruct (mapping_get args "locale"); [|reflexivity].
      destruct (normalize_locale _ _); cbn [attrs fst]; [|reflexivity].
      by rewrite !lookup_insert_eq.
  - unfold get_request_timezone, query_get, Request.without. run_monad.
    rewrite !lookup_delete_ne by done.
    destruct (truthy _); cbn [attrs journal].
    + by rewrite !lookup_insert_eq.
    + rewrite !lookup_delete_ne by done. rewrite !Hargs.
      destruct (mapping_get args "tzinfo"); cbn [attrs fst]; [|reflexivity].
      by rewrite !lookup_insert_eq.
Qed.

Lemma args_shadows_GET_witness :
  let w := World (<["GET" := VDict [("locale", VStr "fr")]]>
                    {[ "args" := VDict [] ]}) [] in
  fst (get_request_locale (fun _ _ => true) (VStr "en") w)
  = fst (get_request_locale (fun _ _ => true) (VStr "en") (Request.without "GET" w))
  /\ fst (get_request_timezone (fun _ => None) (VStr "en") w)
     = fst (get_request_timezone (fun _ => None) (VStr "en") (Request.without "GET" w)).
Proof.
  cbv zeta.
  apply (args_shadows_GET (fun _ _ => true) (fun _ => None) (VStr "en") (VDict [])).
  vm_compute. reflexivity.
Defined.

(** X21: when the request's own attribute is absent or empty and the
    object holding the query arguments is not a mapping, both functions
    raise [AttributeError] after three reads and assign nothing. *)
Theorem query_arguments_not_a_mapping
    (locale_exists : string -> option string -> bool)
    (get_timezone : value -> option value)
    (default : value) (w : world) :
  (forall kvs, Request.query_source w <> VDict kvs) ->
  (Request.silent "locale" w ->
   get_request_locale locale_exists default w
   = (Raise AttributeError,
      World (attrs w) (journal w ++ [EvGet "locale"; EvGet "GET"; EvGet "args"])))
  /\ (Request.silent "tzinfo" w ->
      get_request_timezone get_timezone default w
      = (Raise AttributeError,
         World (attrs w) (journal w ++ [EvGet "tzinfo"; EvGet "GET"; EvGet "args"]))).
Proof.
  intros Hnot.
  assert (mapping_get (Request.query_source w) "locale" = Raise AttributeError
          /\ mapping_get (Request.query_source w) "tzinfo" = Raise AttributeError)
    as [Hl Ht].
  { destruct (Request.query_source w) eqn:E; try (by split). by destruct (Hnot kvs). }
  unfold Request.query_source, Request.attr_or in Hl, Ht.
  split; intros Hsilent; unfold Request.silent in Hsilent.
  - unfold get_request_locale, query_get. run_monad.
    destruct (attrs w !! "locale") as [own|]; cbn [truthy];
      rewrite ?Hsilent; cbn [attrs journal]; rewrite Hl, journal_three;
      reflexivity.
  - unfold get_request_timezone, query_get. run_monad.
    destruct (attrs w !! "tzinfo") as [own|]; cbn [truthy];
      rewrite ?Hsilent; cbn [attrs journal]; rewrite Ht, journal_three;
      reflexivity.
Qed.

Lemma query_arguments_not_a_mapping_witness :
  let w := World {[ "args" := VStr "locale=fr" ]} [] in
  get_request_locale (fun _ _ => true) (VStr "en") w
  = (Raise AttributeError,
     World (attrs w) (journal w ++ [EvGet "locale"; EvGet "GET"; EvGet "args"])).
Proof.
  cbv zeta.
  refine (proj1 (query_arguments_not_a_mapping (fun _ _ => true) (fun _ => None)
                   (VStr "en") (World {[ "args" := VStr "locale=fr" ]} []) _) _).
  - intros kvs. vm_compute. discriminate.
  - vm_compute. exact I.
Defined.



(** X23: the value stored by [get_request_locale] is normalized again
    by the next call. When nothing is found and the default is a text
    that the locale database knows, the first call returns (and stores)
    the text itself and a second call with the same default returns the
    locale object of that text. *)
Theorem default_text_normalized_by_second_call
    (locale_exists : string -> option string -> bool)
    (s : string) (n : value) (kvs : list (string * value)) (w : world) :
  Request.silent "locale" w ->
  Request.query_source w = VDict kvs ->
  assoc "locale" kvs = None ->
  s <> "" ->
  normalize_locale locale_exists (VStr s) = Ok n ->
  truthy n = true ->
  exists w1 w2,
    get_request_locale locale_exists (VStr s) w = (Ok (VStr s), w1)
    /\ get_request_locale locale_exists (VStr s) w1 = (Ok n, w2).
Proof.
  intros Hsilent Hsrc Hnone Hne Hn Htruthy.
  assert (truthy (VStr s) = true) as Hs by (by destruct s).
  assert (truthy (Request.attr_or "locale" VNone w) = false) as Hown.
  { unfold Request.silent in Hsilent. unfold Request.attr_or.
    by destruct (attrs w !! "locale"). }
  assert (Request.found_value "locale" w = VNone) as Hfound.
  { unfold Request.found_value. cbv zeta. by rewrite Hown, Hsrc, Hnone. }
  assert (Request.query_ok "locale" w) as Hq by (right; by exists kvs).
  destruct (found_value_run "locale" w Hq) as (reads & Hreads & Hrun).
  rewrite Hfound in Hrun.
  eexists _, _. split.
  - unfold get_request_locale. rewrite bind_assoc_run.
    unfold mbind at 1, M_bind at 1, bind at 1. rewrite Hrun.
    unfold mbind at 1, M_bind at 1, bind at 1, lift.
    unfold normalize_locale at 1. cbn [truthy negb].
    rewrite store_and_return. unfold por. cbn [truthy]. reflexivity.
  - unfold get_request_locale. run_monad. rewrite lookup_insert_eq, Hs, Hn.
    cbn [attrs journal]. unfold por. rewrite Htruthy.
    rewrite lookup_insert_eq. reflexivity.
Qed.

Lemma default_text_normalized_by_second_call_witness :
  exists w1 w2,
    get_request_locale (fun _ _ => true) (VStr "en") (World ∅ []) = (Ok (VStr "en"), w1)
    /\ get_request_locale (fun _ _ => true) (VStr "en") w1 = (Ok (VLocale "en" None), w2).
Proof.
  apply (default_text_normalized_by_second_call
           (fun _ _ => true) "en" (VLocale "en" None) [] (World ∅ []));
    [vm_compute; exact I | vm_compute; reflexivity | reflexivity | discriminate
    | vm_compute; reflexivity | reflexivity].
Defined.

(** ** More on the plural lookup *)

Section PluralRangeFacts.

Import Plural.

Lemma literal_lookup_int_other (n : Z) :
  n <> 0 -> n <> 1 -> n <> 2 -> n <> 3 ->
  number_literal_equiv !! KInt n = None.
Proof.
  intros H0 H1 H2 H3. unfold number_literal_equiv. cbn [list_to_map foldr fst snd uncurry].
  repeat (rewrite lookup_insert_ne by congruence).
  apply lookup_empty.
Qed.

Lemma first_hit_range (dic : gmap key string) (keys : list key) :
  (first_hit dic keys = "" /\ Forall (fun k => dic !! k = None) keys)
  \/ exists k, k ∈ keys /\ dic !! k = Some (first_hit dic keys).
Proof.
  induction keys as [|k keys IH]; cbn [first_hit].
  - left. by split.
  - destruct (dic !! k) as [v|] eqn:Hk.
    + right. exists k. split; [by left|done].
    + destruct IH as [[IH1 IH2]|(k' & Hin & Hk')].
      * left. split; [done|]. by constructor.
      * right. exists k'. split; [by right|done].
Qed.

End PluralRangeFacts.

(** X24: the bucket name does not depend on whether the count comes as
    a number or as its decimal text, and every text other than ["0"],
    ["1"], ["2"], ["3"] (["01"] or ["1.0"], say) is in the bucket
    ["many"]. *)
Theorem number_to_literal_forms (n : Z) :
  number_to_literal (KInt n) = Plural.bucket_rule n
  /\ number_to_literal (KInt n) = number_to_literal (KStr (PyStr.str n))
  /\ forall s, s ∉ ["0"; "1"; "2"; "3"] -> number_to_literal (KStr s) = "many".
Proof.
  assert (number_to_literal (KInt n) = Plural.bucket_rule n) as Hint.
  { destruct (decide (n = 0)) as [->|N0]; [reflexivity|].
    destruct (decide (n = 1)) as [->|N1]; [reflexivity|].
    destruct (decide (n = 2)) as [->|N2]; [reflexivity|].
    destruct (decide (n = 3)) as [->|N3]; [reflexivity|].
    unfold number_to_literal, dict_get.
    rewrite literal_lookup_int_other by done.
    destruct n as [|[[]|[]|]|]; try reflexivity; lia. }
  split; [exact Hint|]. split; [by rewrite Hint, number_to_literal_str|].
  intros s Hs. unfold number_to_literal, dict_get.
  rewrite literal_lookup_other; [reflexivity|..]; intros ->; apply Hs;
    repeat first [by left | right].
Qed.

Lemma number_to_literal_forms_witness : number_to_literal (KStr "01") = "many".
Proof.
  apply (proj2 (proj2 (number_to_literal_forms 0))).
  intros H. repeat (apply elem_of_cons in H as [H|H]; [discriminate|]).
  by apply elem_of_nil in H.
Defined.

(** X25: [pluralize] returns either a value that the mapping holds
    under one of the five keys it consults, or the empty text, and the
    empty text only as such a value or when none of the five keys is
    present; for the empty mapping it is always the empty text. *)
Theorem pluralize_range (dic : gmap key string) (count : option Z) :
  ((pluralize dic count = ""
    /\ Forall (fun k => dic !! k = None) (Plural.lookup_keys count))
   \/ exists k, k ∈ Plural.lookup_keys count
                /\ dic !! k = Some (pluralize dic count))
  /\ pluralize ∅ count = "".
Proof.
  split.
  - rewrite pluralize_first_hit. apply first_hit_range.
  - rewrite pluralize_first_hit. unfold Plural.lookup_keys. cbn [Plural.first_hit].
    by rewrite !lookup_empty.
Qed.

(** X26: a mapping with the key ["n"] or the key ["many"] covers every
    count: the result is then always one of the mapping's values, never
    the built-in empty default. *)
Theorem pluralize_catch_all (dic : gmap key string) (count : option Z) :
  is_Some (dic !! KStr "n") \/ is_Some (dic !! KStr "many") ->
  exists k, k ∈ Plural.lookup_keys count
            /\ dic !! k = Some (pluralize dic count).
Proof.
  intros Hcatch. rewrite pluralize_first_hit.
  destruct (first_hit_range dic (Plural.lookup_keys count))
    as [[_ Hnone]|Hhit]; [|exact Hhit].
  exfalso. unfold Plural.lookup_keys in Hnone. cbv zeta in Hnone.
  rewrite !Forall_cons in Hnone.
  destruct Hnone as (_ & _ & _ & Hmany & Hn & _).
  destruct Hcatch as [[v Hv]|[v Hv]]; congruence.
Qed.

Lemma pluralize_catch_all_witness :
  exists k, k ∈ Plural.lookup_keys (Some (-7))
            /\ ({[KStr "n" := "{count} apples"]} : gmap key string) !! k
               = Some (pluralize {[KStr "n" := "{count} apples"]} (Some (-7))).
Proof.
  apply (pluralize_catch_all {[KStr "n" := "{count} apples"]} (Some (-7))).
  left. by rewrite lookup_singleton_eq.
Defined.
